(** * STSL: the speech-to-sign-language player ([main.py])

    A shallow embedding of the four parts of [main.py]:
    the sign catalog [SIGN_DICT], the resolver [sentence_to_sign_paths],
    the player [play_video] and the listen loop of [main].

    Text.  A Python [str] is modelled as a Rocq [string] whose characters
    are the code points U+0000..U+00FF; [str.split], [str.strip] and
    [str.lower] are Python's on that range.

    Effects.  Everything the program does to the outside (console, OpenCV
    window, capture handle, sleeping) is recorded, in order, as an [Event]
    emitted by the program; what the outside answers (a decoded image, the
    frames of a clip, a key press, a recognition result) is read from an
    [Env], from the [Keyboard] queue and from the utterances heard. *)

From Stdlib Require Import ZArith NArith QArith Ascii String List Bool Lia.
From stdpp Require Import base option list gmap strings.

Local Open Scope string_scope.
Local Open Scope list_scope.

(** ** Python text operations *)

Module PyStr.

(** [str.isspace] on one character. *)
Definition isspace (c : ascii) : bool :=
  let n := N_of_ascii c in
  (((9 <=? n) && (n <=? 13)) || ((28 <=? n) && (n <=? 32))
   || (n =? 133) || (n =? 160))%N.

(** [str.lower] on one character: A-Z, and U+00C0..U+00DE but the
    multiplication sign U+00D7, move up by 32. *)
Definition lower_char (c : ascii) : ascii :=
  let n := N_of_ascii c in
  if (((65 <=? n) && (n <=? 90))
      || ((192 <=? n) && (n <=? 222) && negb (n =? 215)))%N
  then ascii_of_N (n + 32) else c.

Fixpoint lower (s : string) : string :=
  match s with
  | EmptyString => EmptyString
  | String c s' => String (lower_char c) (lower s')
  end.

Fixpoint lstrip (s : string) : string :=
  match s with
  | EmptyString => EmptyString
  | String c s' => if isspace c then lstrip s' else s
  end.

Fixpoint rstrip (s : string) : string :=
  match s with
  | EmptyString => EmptyString
  | String c s' =>
      match rstrip s' with
      | EmptyString => if isspace c then EmptyString else String c EmptyString
      | r => String c r
      end
  end.

(** [s.strip()] with no argument. *)
Definition strip (s : string) : string := rstrip (lstrip s).

(** The scan of [s.split()] with no argument: [cur] is the token being
    read; a run of whitespace closes it, and no empty token is produced. *)
Fixpoint split_scan (cur : string) (s : string) : list string :=
  match s with
  | EmptyString => match cur with EmptyString => [] | _ => [cur] end
  | String c s' =>
      if isspace c
      then match cur with
           | EmptyString => split_scan EmptyString s'
           | _ => cur :: split_scan EmptyString s'
           end
      else split_scan (cur +:+ String c EmptyString) s'
  end.

Definition split (s : string) : list string := split_scan EmptyString s.

(** Truth value of a [str]: empty is false. *)
Definition truthy (s : string) : bool :=
  match s with EmptyString => false | _ => true end.

Definition startswith_char (c : ascii) (s : string) : bool :=
  match s with String a _ => Ascii.eqb a c | EmptyString => false end.

Fixpoint endswith_char (c : ascii) (s : string) : bool :=
  match s with
  | EmptyString => false
  | String a EmptyString => Ascii.eqb a c
  | String _ s' => endswith_char c s'
  end.

(** [s.rfind(c)]: index of the last [c], or -1. *)
Fixpoint rfind_from (c : ascii) (s : string) (i last : Z) : Z :=
  match s with
  | EmptyString => last
  | String a s' => rfind_from c s' (i + 1) (if Ascii.eqb a c then i else last)
  end.

Definition rfind (c : ascii) (s : string) : Z := rfind_from c s 0 (-1).

(** [s[i:]] for [0 <= i]. *)
Fixpoint drop (n : nat) (s : string) : string :=
  match n, s with
  | O, _ => s
  | S n', String _ s' => drop n' s'
  | S _, EmptyString => EmptyString
  end.

(** [s[:i]] for [0 <= i]. *)
Fixpoint take (n : nat) (s : string) : string :=
  match n, s with
  | O, _ => EmptyString
  | S n', String c s' => String c (take n' s')
  | S _, EmptyString => EmptyString
  end.

End PyStr.

(** ** [os.path] on a POSIX host *)

Module OsPath.

Definition sep : ascii := "/"%char.
Definition extsep : ascii := "."%char.

(** [os.path.join(a, b)]. *)
Definition join (a b : string) : string :=
  if PyStr.startswith_char sep b then b
  else if negb (PyStr.truthy a) || PyStr.endswith_char sep a then a +:+ b
  else a +:+ String sep b.

(** The loop of [genericpath._splitext] that skips the leading dots of
    the file name: [true] when a character other than a dot stands in
    [p[i : i + n]]. *)
Fixpoint has_non_dot (n : nat) (s : string) : bool :=
  match n, s with
  | S n', String c s' => negb (Ascii.eqb c extsep) || has_non_dot n' s'
  | _, _ => false
  end.

(** [os.path.splitext(p)]. *)
Definition splitext (p : string) : string * string :=
  let sepIndex := PyStr.rfind sep p in
  let dotIndex := PyStr.rfind extsep p in
  if (sepIndex <? dotIndex)%Z
     && has_non_dot (Z.to_nat (dotIndex - (sepIndex + 1)))
                    (PyStr.drop (Z.to_nat (sepIndex + 1)) p)
  then (PyStr.take (Z.to_nat dotIndex) p, PyStr.drop (Z.to_nat dotIndex) p)
  else (p, EmptyString).

End OsPath.

(** ** The outside world *)

(** A decoded picture; only which picture it is matters here. *)
Definition Frame := nat.

(** One line on the console, by the [print] that writes it. *)
Inductive Message : Type :=
| WarnCannotOpenImage (path : string)
| WarnCannotOpenVideo (path : string)
| InfoNoSign (word : string)
| SpeakNow
| Stt (sentence : string)
| ErrorNotUnderstood
| ErrorService (e : string)
| FatalNoFolder (folder : string)
| BannerTitle
| BannerCtrlC
| BannerQ
| InfoNoPlayable
| Ready
| ExitBye.

(** What the program does to the outside, one constructor per call. *)
Inductive Event : Type :=
| Print (m : Message)
| Imread (path : string)
| Imshow (window : string) (f : Frame)
| WaitKey (delay elapsed key : Z)
| VideoCapture (path : string)
| CapRead
| CapRelease
| Sleep (seconds : Q)
| DestroyAllWindows
| AdjustForAmbientNoise
| Listen
| RecognizeGoogle
| SysExit (code : Z).

(** A key going down [key_after] milliseconds into a [cv2.waitKey]. *)
Record KeyPress : Type := { key_code : Z; key_after : N }.

(** One entry per [cv2.waitKey] call, oldest first: what the user does
    while that call waits.  A queue that has run out is a user who
    presses nothing. *)
Definition Keyboard := list (option KeyPress).

(** What [recognizer.recognize_google] does with one utterance. *)
Inductive Recognition : Type :=
| Recognized (text : string)
| UnknownValueError
| RequestError (e : string).

(** The files and folders of the host: what [cv2.imread] decodes ([None]
    when it cannot), the frames [cv2.VideoCapture] delivers ([None] when
    the capture does not open), and [os.path.isdir]. *)
Record Env : Type := {
  imread : string -> option Frame;
  video_file : string -> option (list Frame);
  isdir : string -> bool
}.

(** ** Effects: a program reads the keyboard queue and emits events *)

Definition M (A : Type) : Type := Keyboard -> A * list Event * Keyboard.

Definition ret {A} (a : A) : M A := fun k => (a, [], k).

Definition bind {A B} (m : M A) (f : A -> M B) : M B :=
  fun k =>
    let '(a, e1, k1) := m k in
    let '(b, e2, k2) := f a k1 in
    (b, e1 ++ e2, k2).

Notation "x <- m ;; f" := (bind m (fun x => f))
  (at level 100, m at next level, right associativity).
Notation "m ;; f" := (bind m (fun _ => f))
  (at level 100, right associativity).

Definition emit (e : Event) : M unit := fun k => (tt, [e], k).

Definition result {A} (o : A * list Event * Keyboard) : A := o.1.1.
Definition events {A} (o : A * list Event * Keyboard) : list Event := o.1.2.
Definition keys_left {A} (o : A * list Event * Keyboard) : Keyboard := o.2.

(** [for x in xs: s = body(s, x)] *)
Fixpoint for_fold {A S} (body : S -> A -> M S) (s : S) (xs : list A) : M S :=
  match xs with
  | [] => ret s
  | x :: xs' => s' <- body s x ;; for_fold body s' xs'
  end.

(** [for x in xs: body(x)] *)
Fixpoint for_each {A} (body : A -> M unit) (xs : list A) : M unit :=
  match xs with
  | [] => ret tt
  | x :: xs' => body x ;; for_each body xs'
  end.

(** [cv2.waitKey(delay)] for a positive [delay]: the code of the key that
    went down within [delay] milliseconds, returned as soon as it does, or
    -1 once [delay] milliseconds have passed. *)
Definition waitKey (delay : Z) : M Z :=
  fun k =>
    let timeout := (-1, [WaitKey delay delay (-1)])%Z in
    match k with
    | [] => (timeout, [])
    | None :: k' => (timeout, k')
    | Some p :: k' =>
        if (Z.of_N (key_after p) <? delay)%Z
        then (key_code p, [WaitKey delay (Z.of_N (key_after p)) (key_code p)], k')
        else (timeout, k')
    end.

(** ** Configuration *)

Definition SIGN_FOLDER : string := "signs".

Definition SIGN_DICT : gmap string string :=
  <["how" := "how.mp4"]> (<["can" := "can.mp4"]>
  (<["i" := "I.mp4"]> (<["help" := "help.mp4"]> ∅))).

Definition INTER_SIGN_DELAY : Q := 0.4.

Definition WINDOW : string := "Sign Language Player".

Definition IMAGE_EXTENSIONS : list string :=
  [".jpg"; ".jpeg"; ".png"; ".gif"; ".bmp"].

(** [ord("q")] *)
Definition ord_q : Z := 113.

(** ** [play_video] *)

(** The body of [while cap.isOpened():].  The handle stays open until
    [cap.release()], so the loop runs until [cap.read()] has no frame left
    or the user presses q. *)
Fixpoint video_loop (frames : list Frame) : M unit :=
  match frames with
  | [] => emit CapRead
  | frame :: rest =>
      emit CapRead ;;
      emit (Imshow WINDOW frame) ;;
      key <- waitKey 25 ;;
      if (Z.land key 255 =? ord_q)%Z then ret tt else video_loop rest
  end.

(** [play_video(path)]; its value is [None], here [tt]. *)
Definition play_video (env : Env) (path : string) : M unit :=
  let ext := PyStr.lower (OsPath.splitext path).2 in
  if bool_decide (ext ∈ IMAGE_EXTENSIONS) then
    emit (Imread path) ;;
    match imread env path with
    | None => emit (Print (WarnCannotOpenImage path))
    | Some frame =>
        emit (Imshow WINDOW frame) ;;
        waitKey 1500 ;;
        ret tt
    end
  else
    emit (VideoCapture path) ;;
    match video_file env path with
    | None => emit (Print (WarnCannotOpenVideo path))
    | Some frames => video_loop frames ;; emit CapRelease
    end.

(** ** [sentence_to_sign_paths] *)

Section Resolver.

(** The catalog the resolver reads; [SIGN_DICT] in the program. *)
Variable catalog : gmap string string.

(** The body of [for raw_word in sentence.split():]. *)
Definition resolve_word (paths : list string) (raw_word : string)
  : M (list string) :=
  let word := PyStr.lower (PyStr.strip raw_word) in
  let filename := catalog !! word in
  match filename with
  | Some f =>
      if PyStr.truthy f
      then ret (paths ++ [OsPath.join SIGN_FOLDER f])
      else emit (Print (InfoNoSign word)) ;; ret paths
  | None => emit (Print (InfoNoSign word)) ;; ret paths
  end.

Definition sentence_to_sign_paths (sentence : string) : M (list string) :=
  for_fold resolve_word [] (PyStr.split sentence).

End Resolver.

(** ** [listen_for_sentence] and [main] *)

Definition listen_for_sentence (heard : Recognition) : M string :=
  emit (Print SpeakNow) ;;
  emit AdjustForAmbientNoise ;;
  emit Listen ;;
  emit RecognizeGoogle ;;
  match heard with
  | Recognized sentence =>
      emit (Print (Stt sentence)) ;; ret (PyStr.lower sentence)
  | UnknownValueError => emit (Print ErrorNotUnderstood) ;; ret ""
  | RequestError e => emit (Print (ErrorService e)) ;; ret ""
  end.

(** One turn of [while True:] in [main]; each [continue] ends the turn. *)
Definition cycle (env : Env) (heard : Recognition) : M unit :=
  sentence <- listen_for_sentence heard ;;
  if negb (PyStr.truthy sentence) then ret tt
  else
    sign_paths <- sentence_to_sign_paths SIGN_DICT sentence ;;
    match sign_paths with
    | [] => emit (Print InfoNoPlayable)
    | _ =>
        for_each (fun path => play_video env path ;; emit (Sleep INTER_SIGN_DELAY))
                 sign_paths ;;
        emit DestroyAllWindows ;;
        emit (Print Ready)
    end.

(** The loop of [main] over the utterances the user speaks; Ctrl-C comes
    when there is none left, while the program listens. *)
Fixpoint listen_loop (env : Env) (heard : list Recognition) : M unit :=
  match heard with
  | [] => emit (Print ExitBye) ;; emit DestroyAllWindows
  | h :: rest => cycle env h ;; listen_loop env rest
  end.


(** ** The resolver, seen from outside *)

(** The words of a sentence as the resolver looks them up. *)
Definition words (sentence : string) : list string :=
  (fun raw_word => PyStr.lower (PyStr.strip raw_word)) <$> PyStr.split sentence.

(** A word has a sign when the catalog gives it a non-empty file name. *)
Definition has_sign (catalog : gmap string string) (word : string) : bool :=
  match catalog !! word with
  | Some f => PyStr.truthy f
  | None => false
  end.

Definition sign_path (catalog : gmap string string) (word : string) : string :=
  OsPath.join SIGN_FOLDER (default EmptyString (catalog !! word)).

Definition no_sign_lines (catalog : gmap string string) (ws : list string)
  : list Event :=
  (fun w => Print (InfoNoSign w)) <$> filter (fun w => ¬ has_sign catalog w) ws.

(** ** Auxiliary notions for the proofs *)

(** A text that is empty or begins with a visible character. *)
Definition starts_clean (s : string) : Prop :=
  match s with
  | EmptyString => True
  | String c _ => PyStr.isspace c = false
  end.

(** ** Notions used to state what the player does *)

(** The extension [play_video] tests. *)
Definition ext_of (path : string) : string :=
  PyStr.lower (OsPath.splitext path).2.

(** The three ways one playback can end, as the specification names them.
    [play_video] returns no such value; [exit_of] reads the way a call
    ended off the events of that call: a warning was printed; or a video
    frame's wait returned q; or neither. *)
Inductive PlaybackOutcome : Type := Completed | StoppedByUser | FailedToOpen.

Definition is_warning (e : Event) : bool :=
  match e with
  | Print (WarnCannotOpenImage _) | Print (WarnCannotOpenVideo _) => true
  | _ => false
  end.

Definition is_q_stop (e : Event) : bool :=
  match e with
  | WaitKey delay _ key => ((delay =? 25) && (Z.land key 255 =? ord_q))%Z
  | _ => false
  end.

Definition exit_of (es : list Event) : PlaybackOutcome :=
  if existsb is_warning es then FailedToOpen
  else if existsb is_q_stop es then StoppedByUser
  else Completed.

Definition is_release (e : Event) : bool :=
  match e with CapRelease => true | _ => false end.

(** How many times [cap.release()] ran. *)
Definition releases (es : list Event) : nat :=
  length (List.filter is_release es).

(** Milliseconds spent in [cv2.waitKey]. *)
Fixpoint display_ms (es : list Event) : Z :=
  match es with
  | [] => 0
  | WaitKey _ elapsed _ :: es' => elapsed + display_ms es'
  | _ :: es' => display_ms es'
  end.

Definition is_open_call (e : Event) : bool :=
  match e with Imread _ | VideoCapture _ => true | _ => false end.

Definition is_sleep (e : Event) : bool :=
  match e with Sleep _ => true | _ => false end.

(** The calls that open a media file, in order. *)
Definition open_calls (es : list Event) : list Event :=
  List.filter is_open_call es.

(** The calls that open a media file and the sleeps, in order. *)
Definition playback_marks (es : list Event) : list Event :=
  List.filter (fun e => is_open_call e || is_sleep e) es.

(** What the loop over the frames of an open capture may emit. *)
Definition is_frame_step (e : Event) : bool :=
  match e with
  | CapRead | Imshow _ _ => true
  | WaitKey delay _ _ => (delay =? 25)%Z
  | _ => false
  end.

(** [path] cannot be opened: the image does not decode, or the capture
    does not open. *)
Definition cannot_open (env : Env) (path : string) : Prop :=
  if bool_decide (ext_of path ∈ IMAGE_EXTENSIONS)
  then imread env path = None
  else video_file env path = None.

(** ** Hosts for the examples *)

(** No file can be opened. *)
Definition env_nothing : Env :=
  {| imread := fun _ => None; video_file := fun _ => None;
     isdir := fun _ => true |}.

(** Every image decodes to picture 7 and every clip has five frames. *)
Definition env_all : Env :=
  {| imread := fun _ => Some 7%nat;
     video_file := fun _ => Some [1; 2; 3; 4; 5]%nat;
     isdir := fun _ => true |}.

Definition press (code : Z) (after : N) : option KeyPress :=
  Some {| key_code := code; key_after := after |}.

(** ** Notions used to state what the listen loop does *)

(** What [listen_for_sentence] does before it has an answer. *)
Definition listening : list Event :=
  [Print SpeakNow; AdjustForAmbientNoise; Listen; RecognizeGoogle].

(** The line printed when recognition fails, if it fails. *)
Definition failure_line (heard : Recognition) : option Message :=
  match heard with
  | Recognized _ => None
  | UnknownValueError => Some ErrorNotUnderstood
  | RequestError e => Some (ErrorService e)
  end.

(** The call that opens [path], by its extension. *)
Definition open_call_of (path : string) : Event :=
  if bool_decide (ext_of path ∈ IMAGE_EXTENSIONS)
  then Imread path else VideoCapture path.

(** The body of [for path in sign_paths:] in [main]. *)
Definition play_then_sleep (env : Env) (path : string) : M unit :=
  play_video env path ;; emit (Sleep INTER_SIGN_DELAY).

(** ** Further notions: frames, reads, keys and turns *)

(** The pictures put on the window, in order. *)
Fixpoint shown_frames (es : list Event) : list Frame :=
  match es with
  | [] => []
  | Imshow _ f :: es' => f :: shown_frames es'
  | _ :: es' => shown_frames es'
  end.

Definition is_read (e : Event) : bool :=
  match e with CapRead => true | _ => false end.

(** How many times [cap.read()] ran. *)
Definition reads (es : list Event) : nat := length (List.filter is_read es).

(** The test of line 89 on the key a wait returned. *)
Definition is_q (key : Z) : bool := (Z.land key 255 =? ord_q)%Z.

(** What one keyboard entry does to the 25 ms wait of a frame: it stops
    the clip when a key goes down in time and its code passes [is_q]. *)
Definition key_stops (entry : option KeyPress) : bool :=
  match entry with
  | Some p => (Z.of_N (key_after p) <? 25)%Z && is_q (key_code p)
  | None => false
  end.

(** Milliseconds one keyboard entry keeps a wait of [delay] waiting. *)
Definition entry_ms (delay : Z) (entry : option KeyPress) : Z :=
  match entry with
  | Some p => if (Z.of_N (key_after p) <? delay)%Z
              then Z.of_N (key_after p) else delay
  | None => delay
  end.



Definition is_destroy (e : Event) : bool :=
  match e with DestroyAllWindows => true | _ => false end.

(** Whether recognition gave a text. *)
Definition is_recognized (heard : Recognition) : bool :=
  match heard with Recognized _ => true | _ => false end.


(** What playing a list of items may emit: the calls of the player, its
    two warnings, and the sleeps between items. *)
Definition is_playing (e : Event) : bool :=
  match e with
  | Imread _ | Imshow _ _ | WaitKey _ _ _ | VideoCapture _
  | CapRead | CapRelease | Sleep _ => true
  | Print m => is_warning (Print m)
  | _ => false
  end.


(** How many times [cv2.destroyAllWindows()] ran. *)
Definition destroys (es : list Event) : nat := length (List.filter is_destroy es).

(** The key a wait of [delay] returns on one keyboard entry. *)
Definition key_of (delay : Z) (entry : option KeyPress) : Z :=
  match entry with
  | Some p => if (Z.of_N (key_after p) <? delay)%Z then key_code p else (-1)%Z
  | None => (-1)%Z
  end.

(** The entry the next wait consumes. *)
Definition next_entry (k : Keyboard) : option KeyPress := default None (head k).

(** What the frame loop emits for one frame. *)
Definition frame_events (f : Frame) (entry : option KeyPress) : list Event :=
  [CapRead; Imshow WINDOW f;
   WaitKey 25 (entry_ms 25 entry) (key_of 25 entry)].

(** Whether a text holds a whitespace character. *)
Fixpoint has_space (s : string) : bool :=
  match s with
  | EmptyString => false
  | String c s' => PyStr.isspace c || has_space s'
  end.

(** Whether a text holds the character [c]. *)
Fixpoint has_char (c : ascii) (s : string) : bool :=
  match s with
  | EmptyString => false
  | String a s' => Ascii.eqb a c || has_char c s'
  end.

(** Whether a text holds a character other than a dot. *)
Fixpoint has_name (s : string) : bool :=
  match s with
  | EmptyString => false
  | String a s' => negb (Ascii.eqb a OsPath.extsep) || has_name s'
  end.

(** ** Worked examples of the text and path operations *)

Example splitext_mp4 : OsPath.splitext "signs/how.mp4" = ("signs/how", ".mp4").
Proof. reflexivity. Qed.

Example splitext_hidden : OsPath.splitext "signs/.png" = ("signs/.png", "").
Proof. reflexivity. Qed.

Example splitext_dir_dot : OsPath.splitext "a.b/clip" = ("a.b/clip", "").
Proof. reflexivity. Qed.

Example split_example :
  PyStr.split "  how  can i
 help " = ["how"; "can"; "i"; "help"].
Proof. reflexivity. Qed.

Example strip_example : PyStr.strip "  a b  " = "a b".
Proof. reflexivity. Qed.

Example join_example : OsPath.join "signs" "I.mp4" = "signs/I.mp4".
Proof. reflexivity. Qed.

(** ** Facts about the text operations *)

Section TextFacts.

Import PyStr.

Lemma isspace_lower_char c : isspace (lower_char c) = isspace c.
Proof. destruct c as [[] [] [] [] [] [] [] []]; reflexivity. Qed.

Lemma lower_char_idem c : lower_char (lower_char c) = lower_char c.
Proof. destruct c as [[] [] [] [] [] [] [] []]; reflexivity. Qed.

Lemma lower_idem s : lower (lower s) = lower s.
Proof. induction s as [|c s IH]; simpl; [done|]. by rewrite lower_char_idem, IH. Qed.

Lemma lower_app s t : lower (s +:+ t) = lower s +:+ lower t.
Proof. induction s as [|c s IH]; simpl; [done|]. by rewrite IH. Qed.

Lemma lower_empty s : lower s = EmptyString <-> s = EmptyString.
Proof. destruct s; simpl; split; congruence. Qed.

Lemma lstrip_lower s : lstrip (lower s) = lower (lstrip s).
Proof.
  induction s as [|c s IH]; simpl; [done|].
  rewrite isspace_lower_char. by destruct (isspace c).
Qed.

Lemma rstrip_lower s : rstrip (lower s) = lower (rstrip s).
Proof.
  induction s as [|c s IH]; simpl; [done|].
  rewrite IH, isspace_lower_char.
  destruct (rstrip s); simpl; [by destruct (isspace c)|done].
Qed.

Lemma strip_lower s : strip (lower s) = lower (strip s).
Proof. unfold strip. by rewrite lstrip_lower, rstrip_lower. Qed.

(** Lower-casing moves no token boundary. *)
Lemma split_scan_lower cur s :
  split_scan (lower cur) (lower s) = lower <$> split_scan cur s.
Proof.
  revert cur. induction s as [|c s IH]; intros cur; simpl.
  - by destruct cur.
  - rewrite isspace_lower_char. destruct (isspace c).
    + specialize (IH EmptyString). simpl in IH.
      destruct cur; simpl; by rewrite IH.
    + rewrite <- IH. by rewrite lower_app.
Qed.

Lemma split_lower s : split (lower s) = lower <$> split s.
Proof. apply (split_scan_lower EmptyString). Qed.

Lemma split_lstrip s : split (lstrip s) = split s.
Proof.
  unfold split. induction s as [|c s IH]; simpl; [done|].
  destruct (isspace c) eqn:E; [done|]. simpl. by rewrite E.
Qed.

Lemma split_scan_rstrip cur s : split_scan cur (rstrip s) = split_scan cur s.
Proof.
  revert cur. induction s as [|c s IH]; intros cur; simpl; [done|].
  destruct (rstrip s) as [|a r] eqn:R.
  - destruct (isspace c) eqn:E; simpl.
    + rewrite <- (IH EmptyString). by destruct cur.
    + rewrite E. by rewrite <- IH.
  - remember (String a r) as t. simpl.
    destruct (isspace c); [|apply IH].
    rewrite (IH EmptyString). by destruct cur.
Qed.

Lemma split_strip s : split (strip s) = split s.
Proof.
  transitivity (split (lstrip s)); [|apply split_lstrip].
  apply split_scan_rstrip.
Qed.

End TextFacts.

(** ** Running a program *)

Lemma bind_run {A B} (m : M A) (f : A -> M B) k :
  bind m f k =
  (result (f (result (m k)) (keys_left (m k))),
   events (m k) ++ events (f (result (m k)) (keys_left (m k))),
   keys_left (f (result (m k)) (keys_left (m k)))).
Proof.
  unfold bind, result, events, keys_left.
  destruct (m k) as [[a e1] k1]; simpl.
  by destruct (f a k1) as [[b e2] k2].
Qed.

Lemma emit_run e k : emit e k = (tt, [e], k).
Proof. done. Qed.


(** ** Facts about the resolver *)

Lemma resolve_word_run catalog paths raw_word k :
  resolve_word catalog paths raw_word k =
  let word := PyStr.lower (PyStr.strip raw_word) in
  if has_sign catalog word
  then (paths ++ [sign_path catalog word], [], k)
  else (paths, [Print (InfoNoSign word)], k).
Proof.
  unfold resolve_word, has_sign, sign_path. simpl.
  destruct (catalog !! _) as [f|]; simpl; [|done].
  by destruct (PyStr.truthy f).
Qed.

Lemma for_fold_resolve catalog raw_words paths k :
  let ws := (fun r => PyStr.lower (PyStr.strip r)) <$> raw_words in
  for_fold (resolve_word catalog) paths raw_words k =
  (paths ++ (sign_path catalog <$> filter (fun w => has_sign catalog w) ws),
   no_sign_lines catalog ws, k).
Proof.
  revert paths k. induction raw_words as [|r rs IH]; intros paths k; simpl.
  - unfold ret. by rewrite app_nil_r.
  - rewrite bind_run, resolve_word_run. simpl in IH. unfold no_sign_lines.
    destruct (has_sign catalog _) eqn:E; simpl;
      unfold result, events, keys_left; simpl; rewrite IH.
    + rewrite filter_cons_True by (cbv beta; rewrite E; simpl; tauto).
      rewrite filter_cons_False by (cbv beta; rewrite E; simpl; tauto).
      by rewrite <- app_assoc.
    + rewrite filter_cons_False by (cbv beta; rewrite E; simpl; tauto).
      rewrite filter_cons_True by (cbv beta; rewrite E; simpl; tauto).
      done.
Qed.

Lemma sentence_to_sign_paths_run catalog sentence k :
  sentence_to_sign_paths catalog sentence k =
  (sign_path catalog <$> filter (fun w => has_sign catalog w) (words sentence),
   no_sign_lines catalog (words sentence), k).
Proof. unfold sentence_to_sign_paths. by rewrite for_fold_resolve. Qed.

Lemma for_fold_ext {A S} (f g : S -> A -> M S) xs :
  (forall s x k, f s x k = g s x k) ->
  forall s k, for_fold f s xs k = for_fold g s xs k.
Proof.
  intros Hfg. induction xs as [|x xs IH]; intros s k; simpl; [done|].
  rewrite !bind_run, Hfg. by rewrite !IH.
Qed.

Section StripFacts.

Import PyStr.

Lemma lstrip_starts_clean s : starts_clean (lstrip s).
Proof.
  induction s as [|c s IH]; simpl; [done|].
  by destruct (isspace c) eqn:E; simpl.
Qed.

Lemma rstrip_starts_clean s : starts_clean s -> starts_clean (rstrip s).
Proof.
  destruct s as [|c s]; simpl; [done|]. intros E.
  destruct (rstrip s); simpl; [by rewrite E|done].
Qed.

Lemma lstrip_clean s : starts_clean s -> lstrip s = s.
Proof. destruct s as [|c s]; simpl; [done|]. by intros ->. Qed.

Lemma rstrip_idem s : rstrip (rstrip s) = rstrip s.
Proof.
  induction s as [|c s IH]; simpl; [done|].
  destruct (rstrip s) as [|a r] eqn:R.
  - destruct (isspace c) eqn:E; simpl; [done|]. by rewrite E.
  - remember (String a r) as t. simpl. rewrite IH. by subst t.
Qed.

Lemma strip_idem s : strip (strip s) = strip s.
Proof.
  unfold strip.
  rewrite (lstrip_clean (rstrip (lstrip s))).
  - apply rstrip_idem.
  - apply rstrip_starts_clean, lstrip_starts_clean.
Qed.

(** Trimming and lower-casing a word twice changes nothing more. *)
Lemma normalize_idem s :
  lower (strip (lower (strip s))) = lower (strip s).
Proof. by rewrite strip_lower, lower_idem, strip_idem. Qed.

Lemma words_normalized sentence :
  words (lower (strip sentence)) = words sentence.
Proof.
  unfold words. rewrite split_lower, split_strip, <- list_fmap_compose.
  apply list_fmap_ext. intros _ w _. simpl.
  by rewrite strip_lower, lower_idem.
Qed.

End StripFacts.

Lemma SIGN_DICT_files_named :
  map_Forall (fun _ f => PyStr.truthy f = true) SIGN_DICT.
Proof.
  unfold SIGN_DICT.
  repeat (apply map_Forall_insert_2; [reflexivity|]).
  apply map_Forall_empty.
Qed.

(** C1.  For every sentence, [sentence_to_sign_paths] returns the paths of
    the words that have a sign, in the order in which those words stand in
    the sentence; every path it returns comes from a catalog entry of a
    word of the sentence, so a word absent from the catalog contributes
    nothing (the output has one entry per word with a sign and no filler
    for the others).  In [SIGN_DICT] the words with a sign are exactly its
    keys. *)
Theorem sentence_to_sign_paths_keeps_order
    (catalog : gmap string string) (sentence : string) (k : Keyboard) :
  let paths := result (sentence_to_sign_paths catalog sentence k) in
  paths = sign_path catalog
            <$> filter (fun w => has_sign catalog w) (words sentence)
  /\ (forall p, p ∈ paths ->
        exists w f, w ∈ words sentence /\ catalog !! w = Some f
                    /\ p = OsPath.join SIGN_FOLDER f)
  /\ length paths
     = length (filter (fun w => has_sign catalog w) (words sentence))
  /\ (forall w, has_sign SIGN_DICT w <-> is_Some (SIGN_DICT !! w)).
Proof.
  cbv zeta. rewrite sentence_to_sign_paths_run. unfold result. simpl.
  assert (Hsrc : forall p,
    p ∈ sign_path catalog
          <$> filter (fun w => has_sign catalog w) (words sentence) ->
    exists w f, w ∈ words sentence /\ catalog !! w = Some f
                /\ p = OsPath.join SIGN_FOLDER f).
  { intros p Hp. apply list_elem_of_fmap in Hp as (w & -> & Hw).
    apply list_elem_of_filter in Hw as [Hs Hw].
    unfold has_sign in Hs. unfold sign_path.
    destruct (catalog !! w) as [f|] eqn:E; [|done].
    exists w, f. by repeat split. }
  split; [done|]. split; [exact Hsrc|]. split.
  - by rewrite length_fmap.
  - intros w. unfold has_sign.
    destruct (SIGN_DICT !! w) as [f|] eqn:E.
    + rewrite (SIGN_DICT_files_named w f E). split; [by eexists|done].
    + split; [done|]. by intros [? ?].
Qed.

Lemma sentence_to_sign_paths_keeps_order_witness :
  result (sentence_to_sign_paths SIGN_DICT "can YOU help" [])
  = ["signs/can.mp4"; "signs/help.mp4"].
Proof.
  pose proof (sentence_to_sign_paths_keeps_order SIGN_DICT "can YOU help" [])
    as [H _].
  rewrite H. vm_compute. reflexivity.
Defined.

(** C6.  A sentence that is empty or made of whitespace only (one that
    [strip] empties) resolves to the empty path sequence, with nothing
    printed. *)
Theorem sentence_to_sign_paths_blank
    (catalog : gmap string string) (sentence : string) (k : Keyboard) :
  PyStr.strip sentence = EmptyString ->
  sentence_to_sign_paths catalog sentence k = ([], [], k).
Proof.
  intros Hblank. unfold sentence_to_sign_paths.
  rewrite <- split_strip, Hblank. reflexivity.
Qed.

Lemma sentence_to_sign_paths_blank_witness :
  sentence_to_sign_paths SIGN_DICT "" [] = ([], [], [])
  /\ sentence_to_sign_paths SIGN_DICT "   " [] = ([], [], []).
Proof.
  split.
  - apply (sentence_to_sign_paths_blank SIGN_DICT "" []). reflexivity.
  - apply (sentence_to_sign_paths_blank SIGN_DICT "   " []). reflexivity.
Defined.

(** C7.  Lookup is case-insensitive through normalization: the loop body
    does the same on a token and on its trimmed, lower-cased form, and so
    does the resolver on a whole sentence; "How" resolves like "how", and
    "HELLO world" finds the entry of "hello". *)
Theorem lookup_is_case_insensitive
    (catalog : gmap string string) (k : Keyboard) :
  (forall paths raw_word,
     resolve_word catalog paths (PyStr.lower (PyStr.strip raw_word)) k
     = resolve_word catalog paths raw_word k)
  /\ (forall sentence,
        sentence_to_sign_paths catalog (PyStr.lower (PyStr.strip sentence)) k
        = sentence_to_sign_paths catalog sentence k)
  /\ sentence_to_sign_paths SIGN_DICT "How" k
     = sentence_to_sign_paths SIGN_DICT "how" k
  /\ sentence_to_sign_paths SIGN_DICT "How" k = (["signs/how.mp4"], [], k)
  /\ sentence_to_sign_paths {["hello" := "hello.mp4"]} "HELLO world" k
     = (["signs/hello.mp4"], [Print (InfoNoSign "world")], k).
Proof.
  split; [|split; [|split; [|split]]].
  - intros paths raw_word. rewrite !resolve_word_run. cbv zeta.
    by rewrite normalize_idem.
  - intros sentence. rewrite !sentence_to_sign_paths_run.
    by rewrite words_normalized.
  - vm_compute. reflexivity.
  - vm_compute. reflexivity.
  - vm_compute. reflexivity.
Qed.

(** C10.  A word whose catalog entry is the empty file name is treated as
    unmapped: the loop body prints the no-sign line for it and appends
    nothing, and the resolver does on every sentence what it does once
    the entry is deleted. *)
Theorem empty_filename_is_unmapped
    (catalog : gmap string string) (word : string) :
  catalog !! word = Some EmptyString ->
  (forall paths raw_word k,
     PyStr.lower (PyStr.strip raw_word) = word ->
     resolve_word catalog paths raw_word k
     = (paths, [Print (InfoNoSign word)], k))
  /\ (forall sentence k,
        sentence_to_sign_paths catalog sentence k
        = sentence_to_sign_paths (delete word catalog) sentence k).
Proof.
  intros Hempty. split.
  - intros paths raw_word k Hword. unfold resolve_word. cbv zeta.
    rewrite Hword, Hempty. reflexivity.
  - intros sentence k. unfold sentence_to_sign_paths.
    apply for_fold_ext. intros paths raw_word k'.
    unfold resolve_word. cbv zeta.
    destruct (decide (PyStr.lower (PyStr.strip raw_word) = word)) as [->|Hne].
    + by rewrite Hempty, lookup_delete_eq.
    + by rewrite lookup_delete_ne.
Qed.

Lemma empty_filename_is_unmapped_witness :
  sentence_to_sign_paths (<["um" := ""]> SIGN_DICT) "Um help" []
  = (["signs/help.mp4"], [Print (InfoNoSign "um")], []).
Proof.
  assert (H : <["um" := ""]> SIGN_DICT !! "um" = Some EmptyString)
    by apply lookup_insert_eq.
  destruct (empty_filename_is_unmapped (<["um" := ""]> SIGN_DICT) "um" H)
    as [_ Hdel].
  rewrite Hdel. vm_compute. reflexivity.
Defined.

(** ** Facts about the player *)

(** Runs the binds, emits and returns of a program applied to a keyboard. *)
Ltac run_steps :=
  repeat first
    [ rewrite bind_run
    | rewrite emit_run
    | progress (unfold ret)
    | progress (cbn [result events keys_left fst snd app]) ].

Lemma waitKey_run delay k :
  exists key elapsed,
    waitKey delay k = (key, [WaitKey delay elapsed key], tail k)
    /\ (elapsed = delay /\ key = (-1)%Z
        \/ exists p, head k = Some (Some p) /\ (Z.of_N (key_after p) < delay)%Z
                     /\ elapsed = Z.of_N (key_after p) /\ key = key_code p).
Proof.
  destruct k as [|[p|] k']; simpl; eauto 6.
  destruct (Z.ltb_spec (Z.of_N (key_after p)) delay); eauto 10.
Qed.

(** The frame loop reads, shows and waits 25 ms, and does nothing else. *)
Lemma video_loop_steps frames k :
  forallb is_frame_step (events (video_loop frames k)) = true.
Proof.
  revert k. induction frames as [|f rest IH]; intros k; simpl; [done|].
  rewrite !bind_run. unfold events at 1. simpl.
  destruct (waitKey_run 25 k) as (key & t & -> & _).
  unfold events at 1, result, keys_left. simpl.
  destruct (Z.land key 255 =? ord_q)%Z; [done|]. apply IH.
Qed.

Lemma filter_none_of (p q : Event -> bool) es :
  (forall e, p e = true -> q e = false) ->
  forallb p es = true -> List.filter q es = [].
Proof.
  intros Hpq. induction es as [|e es IH]; simpl; [done|].
  intros [He Hes]%andb_prop. rewrite (Hpq e He). by apply IH.
Qed.

Lemma existsb_none_of (p q : Event -> bool) es :
  (forall e, p e = true -> q e = false) ->
  forallb p es = true -> existsb q es = false.
Proof.
  intros Hpq. induction es as [|e es IH]; simpl; [done|].
  intros [He Hes]%andb_prop. rewrite (Hpq e He). by apply IH.
Qed.

Lemma frame_step_no_release e : is_frame_step e = true -> is_release e = false.
Proof. by destruct e. Qed.

Lemma frame_step_no_warning e : is_frame_step e = true -> is_warning e = false.
Proof. by destruct e. Qed.

Lemma frame_step_no_mark e :
  is_frame_step e = true -> is_open_call e || is_sleep e = false.
Proof. by destruct e. Qed.

Lemma frame_step_no_open e : is_frame_step e = true -> is_open_call e = false.
Proof. by destruct e. Qed.

(** [play_video], branch by branch. *)
Lemma play_video_image env path k :
  ext_of path ∈ IMAGE_EXTENSIONS ->
  play_video env path k =
  match imread env path with
  | None => (tt, [Imread path; Print (WarnCannotOpenImage path)], k)
  | Some frame =>
      (tt, Imread path :: Imshow WINDOW frame :: events (waitKey 1500 k), tail k)
  end.
Proof.
  intros Hext. unfold play_video. fold (ext_of path).
  rewrite bool_decide_eq_true_2 by done.
  destruct (imread env path) as [frame|]; [|done].
  run_steps.
  destruct (waitKey_run 1500 k) as (key & t & -> & _).
  by run_steps.
Qed.

Lemma play_video_video env path k :
  ext_of path ∉ IMAGE_EXTENSIONS ->
  play_video env path k =
  match video_file env path with
  | None => (tt, [VideoCapture path; Print (WarnCannotOpenVideo path)], k)
  | Some frames =>
      (tt, VideoCapture path :: events (video_loop frames k) ++ [CapRelease],
       keys_left (video_loop frames k))
  end.
Proof.
  intros Hext. unfold play_video. fold (ext_of path).
  rewrite bool_decide_eq_false_2 by done.
  destruct (video_file env path) as [frames|]; [|done].
  by run_steps.
Qed.

Lemma video_loop_no_warning frames k :
  existsb is_warning (events (video_loop frames k)) = false.
Proof.
  eapply existsb_none_of; [apply frame_step_no_warning|apply video_loop_steps].
Qed.

Lemma video_loop_no_release frames k :
  List.filter is_release (events (video_loop frames k)) = [].
Proof.
  eapply filter_none_of; [apply frame_step_no_release|apply video_loop_steps].
Qed.

Lemma video_loop_no_open frames k :
  List.filter is_open_call (events (video_loop frames k)) = [].
Proof.
  eapply filter_none_of; [apply frame_step_no_open|apply video_loop_steps].
Qed.

Lemma video_loop_no_mark frames k :
  List.filter (fun e => is_open_call e || is_sleep e)
              (events (video_loop frames k)) = [].
Proof.
  eapply filter_none_of; [apply frame_step_no_mark|apply video_loop_steps].
Qed.

(** A capture that opened does not end as failed-to-open. *)
Lemma exit_of_opened_video path frames k :
  exit_of (VideoCapture path :: events (video_loop frames k) ++ [CapRelease])
  <> FailedToOpen.
Proof.
  unfold exit_of. simpl. rewrite existsb_app, video_loop_no_warning. simpl.
  by destruct (existsb is_q_stop _).
Qed.

(** C3, as the program has it.  [play_video] returns [None] however it
    ends, so no outcome value reaches the caller; the way a call ended
    shows in its events only, and it is failed-to-open exactly when the
    file cannot be opened.  In particular, on an image path whose decode
    fails the call reads the file, prints the warning, shows nothing,
    leaves the keyboard alone and returns. *)
Theorem play_video_failed_image_warns (env : Env) (path : string) (k : Keyboard) :
  result (play_video env path k) = tt
  /\ (exit_of (events (play_video env path k)) = FailedToOpen
      <-> cannot_open env path)
  /\ (ext_of path ∈ IMAGE_EXTENSIONS -> imread env path = None ->
      play_video env path k
      = (tt, [Imread path; Print (WarnCannotOpenImage path)], k)
      /\ exit_of (events (play_video env path k)) = FailedToOpen).
Proof.
  split; [by destruct (result _)|]. split.
  - unfold cannot_open.
    destruct (decide (ext_of path ∈ IMAGE_EXTENSIONS)) as [Hext|Hext].
    + rewrite bool_decide_eq_true_2, play_video_image by done.
      destruct (imread env path) as [frame|]; [|done].
      destruct (waitKey_run 1500 k) as (key & t & -> & _).
      by split.
    + rewrite bool_decide_eq_false_2, play_video_video by done.
      destruct (video_file env path) as [frames|]; [|done].
      split; [|done]. intros Hfail.
      by apply exit_of_opened_video in Hfail.
  - intros Hext Hnone. rewrite play_video_image, Hnone by done. done.
Qed.

Lemma play_video_failed_image_warns_witness :
  play_video env_nothing "signs/hello.png" [None]
  = (tt, [Imread "signs/hello.png";
          Print (WarnCannotOpenImage "signs/hello.png")], [None]).
Proof.
  apply (play_video_failed_image_warns env_nothing "signs/hello.png" [None]).
  - apply (bool_decide_eq_true_1 _). vm_compute. reflexivity.
  - reflexivity.
Defined.

(** C3 as stated fails: the value [play_video] returns when an image does
    not decode is the value it returns when the image is shown ([None]
    both times), so it cannot be FailedToOpen in the first case and
    Completed in the second. *)
Lemma play_video_returns_no_outcome :
  ~ exists as_outcome : unit -> PlaybackOutcome,
      as_outcome (result (play_video env_nothing "signs/hello.png" []))
      = FailedToOpen
      /\ as_outcome (result (play_video env_all "signs/hello.png" []))
         = Completed.
Proof.
  intros (as_outcome & Hfailed & Hshown).
  vm_compute in Hfailed, Hshown. congruence.
Qed.

Lemma releases_app es1 es2 : releases (es1 ++ es2) = (releases es1 + releases es2)%nat.
Proof. unfold releases. by rewrite List.filter_app, length_app. Qed.

(** C4, as the program has it.  On a video path whose capture opens,
    [cap.release()] runs exactly once, as the last thing the call does,
    whatever the frames and whatever the user presses (so both when the
    clip runs out and when the user stops it); when the capture does not
    open, the call returns after the warning and [cap.release()] does not
    run. *)
Theorem capture_released_once_when_opened
    (env : Env) (path : string) (k : Keyboard) :
  ext_of path ∉ IMAGE_EXTENSIONS ->
  (forall frames, video_file env path = Some frames ->
     releases (events (play_video env path k)) = 1%nat
     /\ last (events (play_video env path k)) = Some CapRelease
     /\ exit_of (events (play_video env path k)) <> FailedToOpen)
  /\ (video_file env path = None ->
      releases (events (play_video env path k)) = 0%nat
      /\ exit_of (events (play_video env path k)) = FailedToOpen).
Proof.
  intros Hext. rewrite play_video_video by done. split.
  - intros frames ->. cbn [events fst snd]. split; [|split].
    + change (VideoCapture path :: ?es) with ([VideoCapture path] ++ es).
      rewrite !releases_app. unfold releases at 2.
      by rewrite video_loop_no_release.
    + by rewrite app_comm_cons, last_snoc.
    + apply exit_of_opened_video.
  - by intros ->.
Qed.

(** The specification's test: a clip of five frames, the user presses q
    while the third frame is up. *)
Lemma capture_released_once_when_opened_witness :
  let out := play_video env_all "signs/how.mp4" [None; None; press 113 10] in
  releases (events out) = 1%nat
  /\ last (events out) = Some CapRelease
  /\ exit_of (events out) = StoppedByUser.
Proof.
  assert (Hext : ext_of "signs/how.mp4" ∉ IMAGE_EXTENSIONS)
    by (apply (bool_decide_eq_false_1 _); vm_compute; reflexivity).
  destruct (capture_released_once_when_opened env_all "signs/how.mp4"
              [None; None; press 113 10] Hext) as [Hopen _].
  destruct (Hopen [1; 2; 3; 4; 5]%nat eq_refl) as (Hone & Hlast & _).
  cbv zeta. split; [exact Hone|]. split; [exact Hlast|].
  vm_compute. reflexivity.
Defined.

(** C4 as stated fails: when the capture does not open, [play_video]
    returns without calling [cap.release()] (it runs zero times, not
    once). *)
Lemma capture_not_released_when_not_opened :
  video_file env_nothing "signs/how.mp4" = None
  /\ releases (events (play_video env_nothing "signs/how.mp4" [])) <> 1%nat.
Proof. split; [reflexivity|]. vm_compute. discriminate. Qed.

(** C8, as the program has it.  On an image path that decodes,
    [play_video] shows the picture and calls [cv2.waitKey(1500)] once, and
    returns [None] without looking at the key: the picture stays up for
    1.5 seconds when no key goes down in that time, and for less when one
    does, whichever key it is.  The call ends as completed and takes one
    entry off the keyboard queue. *)
Theorem still_image_shown_up_to_1500_ms
    (env : Env) (path : string) (frame : Frame) (k : Keyboard) :
  ext_of path ∈ IMAGE_EXTENSIONS ->
  imread env path = Some frame ->
  let out := play_video env path k in
  result out = tt
  /\ keys_left out = tail k
  /\ exit_of (events out) = Completed
  /\ (exists key,
        events out = [Imread path; Imshow WINDOW frame;
                      WaitKey 1500 (display_ms (events out)) key])
  /\ (0 <= display_ms (events out) <= 1500)%Z
  /\ (forall p, head k = Some (Some p) ->
        (Z.of_N (key_after p) < 1500)%Z ->
        display_ms (events out) = Z.of_N (key_after p))
  /\ (head k = None \/ head k = Some None ->
      display_ms (events out) = 1500%Z).
Proof.
  intros Hext Hread. cbv zeta.
  rewrite play_video_image, Hread by done.
  destruct k as [|[p|] k']; unfold waitKey;
    [| destruct (Z.ltb_spec (Z.of_N (key_after p)) 1500) |];
    cbn [result events keys_left fst snd display_ms head tail];
    rewrite ?Z.add_0_r;
    (split; [done|]); (split; [done|]); (split; [done|]);
    (split; [by eexists|]); (split; [lia|]);
    (split; [intros q Hq Hlt; simplify_eq; (done || lia)
            |intros [Hn|Hn]; by simplify_eq]).
Qed.

Lemma still_image_shown_up_to_1500_ms_witness :
  display_ms (events (play_video env_all "signs/hello.png" [None; press 32 5]))
  = 1500%Z.
Proof.
  assert (Hext : ext_of "signs/hello.png" ∈ IMAGE_EXTENSIONS)
    by (apply (bool_decide_eq_true_1 _); vm_compute; reflexivity).
  destruct (still_image_shown_up_to_1500_ms env_all "signs/hello.png" 7%nat
              [None; press 32 5] Hext eq_refl)
    as (_ & _ & _ & _ & _ & _ & Hquiet).
  apply Hquiet. right. reflexivity.
Defined.

(** C8 as stated fails: the image decodes, the user presses the space bar
    200 ms into the wait, [cv2.waitKey(1500)] returns at once and the
    picture has been up for 200 ms, not 1500. *)
Lemma still_image_wait_cut_short_by_key :
  imread env_all "signs/hello.png" = Some 7%nat
  /\ display_ms (events (play_video env_all "signs/hello.png" [press 32 200]))
     = 200%Z
  /\ display_ms (events (play_video env_all "signs/hello.png" [press 32 200]))
     <> 1500%Z.
Proof. split; [reflexivity|]. split; [vm_compute; reflexivity|]. vm_compute. discriminate. Qed.

(** C9.  [play_video] chooses by the lower-cased extension of the path
    alone.  A path whose extension is not one of the five image
    extensions is handed to [cv2.VideoCapture] and never to
    [cv2.imread]; if the capture opens, its frames are played and the
    capture released, so the path is not turned away for its extension.
    A path whose extension is one of the five goes to [cv2.imread] and
    never to [cv2.VideoCapture]. *)
Theorem unknown_extension_plays_as_video
    (env : Env) (path : string) (k : Keyboard) :
  (ext_of path ∉ IMAGE_EXTENSIONS ->
     open_calls (events (play_video env path k)) = [VideoCapture path]
     /\ (forall frames, video_file env path = Some frames ->
           play_video env path k
           = (tt, VideoCapture path :: events (video_loop frames k)
                    ++ [CapRelease],
              keys_left (video_loop frames k))
           /\ exit_of (events (play_video env path k)) <> FailedToOpen))
  /\ (ext_of path ∈ IMAGE_EXTENSIONS ->
      open_calls (events (play_video env path k)) = [Imread path]).
Proof.
  split.
  - intros Hext. rewrite play_video_video by done. split.
    + destruct (video_file env path) as [frames|]; [|done].
      cbn [events fst snd]. unfold open_calls.
      change (VideoCapture path :: ?es) with ([VideoCapture path] ++ es).
      by rewrite !List.filter_app, video_loop_no_open.
    + intros frames ->. split; [done|]. apply exit_of_opened_video.
  - intros Hext. rewrite play_video_image by done.
    destruct (imread env path) as [frame|]; [|done].
    by destruct (waitKey_run 1500 k) as (key & t & -> & _).
Qed.

(** An unknown extension, no extension at all, and a dot-file named
    [.png] (whose extension is empty) all go to [cv2.VideoCapture]; an
    upper-case [.PNG] goes to [cv2.imread]. *)
Lemma unknown_extension_plays_as_video_witness :
  open_calls (events (play_video env_all "signs/clip.xyz" []))
  = [VideoCapture "signs/clip.xyz"]
  /\ open_calls (events (play_video env_all "signs/README" []))
     = [VideoCapture "signs/README"]
  /\ open_calls (events (play_video env_all "signs/.png" []))
     = [VideoCapture "signs/.png"]
  /\ open_calls (events (play_video env_all "signs/A.PNG" []))
     = [Imread "signs/A.PNG"].
Proof.
  split; [|split; [|split]].
  - apply (unknown_extension_plays_as_video env_all "signs/clip.xyz" []).
    apply (bool_decide_eq_false_1 _). vm_compute. reflexivity.
  - apply (unknown_extension_plays_as_video env_all "signs/README" []).
    apply (bool_decide_eq_false_1 _). vm_compute. reflexivity.
  - apply (unknown_extension_plays_as_video env_all "signs/.png" []).
    apply (bool_decide_eq_false_1 _). vm_compute. reflexivity.
  - apply (unknown_extension_plays_as_video env_all "signs/A.PNG" []).
    apply (bool_decide_eq_true_1 _). vm_compute. reflexivity.
Defined.

(** ** Facts about the listen loop *)

Lemma listen_for_sentence_run heard k :
  listen_for_sentence heard k =
  match heard with
  | Recognized sentence =>
      (PyStr.lower sentence, listening ++ [Print (Stt sentence)], k)
  | UnknownValueError => (EmptyString, listening ++ [Print ErrorNotUnderstood], k)
  | RequestError e => (EmptyString, listening ++ [Print (ErrorService e)], k)
  end.
Proof. by destruct heard. Qed.

Lemma playback_marks_app es1 es2 :
  playback_marks (es1 ++ es2) = playback_marks es1 ++ playback_marks es2.
Proof. apply List.filter_app. Qed.

Lemma play_video_marks env path k :
  playback_marks (events (play_video env path k)) = [open_call_of path].
Proof.
  unfold open_call_of.
  destruct (decide (ext_of path ∈ IMAGE_EXTENSIONS)) as [Hext|Hext].
  - rewrite bool_decide_eq_true_2, play_video_image by done.
    destruct (imread env path) as [frame|]; [|done].
    by destruct (waitKey_run 1500 k) as (key & t & -> & _).
  - rewrite bool_decide_eq_false_2, play_video_video by done.
    destruct (video_file env path) as [frames|]; [|done].
    cbn [events fst snd].
    change (VideoCapture path :: ?es) with ([VideoCapture path] ++ es).
    rewrite !playback_marks_app. unfold playback_marks at 2.
    by rewrite video_loop_no_mark.
Qed.

(** Every item played is followed by the sleep, in the order of the list. *)
Lemma play_all_marks env paths k :
  playback_marks (events (for_each (play_then_sleep env) paths k))
  = flat_map (fun p => [open_call_of p; Sleep INTER_SIGN_DELAY]) paths.
Proof.
  revert k. induction paths as [|p ps IH]; intros k; [done|].
  cbn [for_each flat_map]. unfold play_then_sleep at 1. run_steps.
  rewrite !playback_marks_app, play_video_marks, IH. done.
Qed.

(** C5.  When recognition fails, as unintelligible audio or as a service
    error, [listen_for_sentence] prints the error line and returns the
    empty sentence; that turn of the loop of [main] then ends at once: it
    has emitted the listening events and the error line only (no file
    opened, nothing shown, no sleep), has taken nothing off the keyboard
    queue, and the loop goes on to listen for the next utterance. *)
Theorem recognition_failure_plays_nothing
    (env : Env) (heard : Recognition) (line : Message)
    (rest : list Recognition) (k : Keyboard) :
  failure_line heard = Some line ->
  listen_for_sentence heard k = (EmptyString, listening ++ [Print line], k)
  /\ cycle env heard k = (tt, listening ++ [Print line], k)
  /\ playback_marks (events (cycle env heard k)) = []
  /\ listen_loop env (heard :: rest) k
     = (tt, (listening ++ [Print line]) ++ events (listen_loop env rest k),
        keys_left (listen_loop env rest k)).
Proof.
  intros Hline.
  assert (Hlisten :
    listen_for_sentence heard k = (EmptyString, listening ++ [Print line], k)).
  { rewrite listen_for_sentence_run.
    destruct heard; simpl in Hline; by simplify_eq. }
  assert (Hcycle : cycle env heard k = (tt, listening ++ [Print line], k)).
  { unfold cycle. rewrite bind_run, Hlisten. reflexivity. }
  split; [done|]. split; [done|]. split; [by rewrite Hcycle|].
  cbn [listen_loop]. rewrite bind_run, Hcycle.
  cbn [result events keys_left fst snd].
  by destruct (result (listen_loop env rest k)).
Qed.

Lemma recognition_failure_plays_nothing_witness :
  cycle env_all UnknownValueError [press 113 3]
  = (tt, listening ++ [Print ErrorNotUnderstood], [press 113 3])
  /\ cycle env_all (RequestError "timed out") [press 113 3]
     = (tt, listening ++ [Print (ErrorService "timed out")], [press 113 3]).
Proof.
  split.
  - apply (recognition_failure_plays_nothing env_all UnknownValueError
             ErrorNotUnderstood [] [press 113 3]).
    reflexivity.
  - apply (recognition_failure_plays_nothing env_all (RequestError "timed out")
             (ErrorService "timed out") [] [press 113 3]).
    reflexivity.
Defined.

(** C2.  The sentence "how can i help" resolves against [SIGN_DICT] to
    the four paths signs/how.mp4, signs/can.mp4, signs/I.mp4 and
    signs/help.mp4, in that order and with nothing skipped; and in the
    turn of the loop that hears it, whatever the files hold and whatever
    the user presses, the four paths are opened in that order, each
    followed by a sleep of 0.4 seconds before the next is opened. *)
Theorem how_can_i_help_plays_four_signs (env : Env) (k : Keyboard) :
  sentence_to_sign_paths SIGN_DICT "how can i help" k
  = (["signs/how.mp4"; "signs/can.mp4"; "signs/I.mp4"; "signs/help.mp4"],
     [], k)
  /\ playback_marks (events (cycle env (Recognized "how can i help") k))
     = [VideoCapture "signs/how.mp4"; Sleep 0.4;
        VideoCapture "signs/can.mp4"; Sleep 0.4;
        VideoCapture "signs/I.mp4"; Sleep 0.4;
        VideoCapture "signs/help.mp4"; Sleep 0.4].
Proof.
  assert (Hpaths :
    sentence_to_sign_paths SIGN_DICT "how can i help" k
    = (["signs/how.mp4"; "signs/can.mp4"; "signs/I.mp4"; "signs/help.mp4"],
       [], k)) by (vm_compute; reflexivity).
  split; [exact Hpaths|].
  unfold cycle. rewrite bind_run, listen_for_sentence_run.
  cbn [result events keys_left fst snd].
  change (PyStr.lower "how can i help") with "how can i help".
  cbn [PyStr.truthy negb]. rewrite bind_run, Hpaths.
  cbn [result events keys_left fst snd].
  fold (play_then_sleep env). run_steps.
  rewrite !playback_marks_app, play_all_marks.
  vm_compute. reflexivity.
Qed.

(** ** More about the resolver *)

Lemma filter_split_length {A} (P : A -> bool) (l : list A) :
  (length (filter (fun x => P x) l) + length (filter (fun x => ¬ P x) l))%nat
  = length l.
Proof.
  induction l as [|x l IH]; [done|].
  destruct (P x) eqn:E.
  - rewrite filter_cons_True by (cbv beta; rewrite E; simpl; tauto).
    rewrite filter_cons_False by (cbv beta; rewrite E; simpl; tauto).
    simpl. lia.
  - rewrite filter_cons_False by (cbv beta; rewrite E; simpl; tauto).
    rewrite filter_cons_True by (cbv beta; rewrite E; simpl; tauto).
    simpl. lia.
Qed.

Lemma words_length sentence : length (words sentence) = length (PyStr.split sentence).
Proof. unfold words. apply length_fmap. Qed.

(** X1.  Every token of the sentence is either resolved or reported, never
    both and never neither: the number of paths returned plus the number
    of lines printed is the number of tokens of the sentence; what is
    printed is the no-sign line of each word without a sign, in sentence
    order; the keyboard queue is not touched. *)
Theorem every_word_resolved_or_reported
    (catalog : gmap string string) (sentence : string) (k : Keyboard) :
  let out := sentence_to_sign_paths catalog sentence k in
  (length (result out) + length (events out))%nat
  = length (PyStr.split sentence)
  /\ events out
     = (fun w => Print (InfoNoSign w))
         <$> filter (fun w => ¬ has_sign catalog w) (words sentence)
  /\ keys_left out = k.
Proof.
  cbv zeta. rewrite sentence_to_sign_paths_run.
  cbn [result events keys_left fst snd]. unfold no_sign_lines.
  rewrite !length_fmap, filter_split_length, words_length. done.
Qed.

Section SplitConcat.

Import PyStr.

Lemma split_scan_space cur c s1 s2 :
  isspace c = true ->
  split_scan cur (s1 +:+ String c s2) = split_scan cur s1 ++ split s2.
Proof.
  intros Hc. revert cur. induction s1 as [|a s1 IH]; intros cur; simpl.
  - rewrite Hc. by destruct cur.
  - destruct (isspace a); [|apply IH].
    rewrite (IH EmptyString). by destruct cur.
Qed.

Lemma words_space c s1 s2 :
  isspace c = true ->
  words (s1 +:+ String c s2) = words s1 ++ words s2.
Proof.
  intros Hc. unfold words, split.
  by rewrite split_scan_space, fmap_app.
Qed.

End SplitConcat.

(** X2.  The resolver works word by word: resolving two sentences joined
    by a whitespace character gives the paths of the first followed by
    the paths of the second, and prints the lines of the first followed
    by the lines of the second. *)
Theorem resolver_concatenates
    (catalog : gmap string string) (s1 s2 : string) (c : ascii) (k : Keyboard) :
  PyStr.isspace c = true ->
  sentence_to_sign_paths catalog (s1 +:+ String c s2) k
  = (result (sentence_to_sign_paths catalog s1 k)
       ++ result (sentence_to_sign_paths catalog s2 k),
     events (sentence_to_sign_paths catalog s1 k)
       ++ events (sentence_to_sign_paths catalog s2 k),
     k).
Proof.
  intros Hc. rewrite !sentence_to_sign_paths_run.
  cbn [result events keys_left fst snd]. unfold no_sign_lines.
  by rewrite words_space, !filter_app, !fmap_app.
Qed.

Lemma resolver_concatenates_witness :
  sentence_to_sign_paths SIGN_DICT "can you help me" []
  = (["signs/can.mp4"; "signs/help.mp4"],
     [Print (InfoNoSign "you"); Print (InfoNoSign "me")], []).
Proof.
  change "can you help me" with ("can you" +:+ String " " "help me").
  rewrite (resolver_concatenates SIGN_DICT "can you" "help me" " " [] eq_refl).
  vm_compute. reflexivity.
Defined.

Lemma resolve_agree c1 c2 (ws : list string) :
  (forall w, w ∈ ws -> c1 !! w = c2 !! w) ->
  sign_path c1 <$> filter (fun w => has_sign c1 w) ws
  = sign_path c2 <$> filter (fun w => has_sign c2 w) ws
  /\ no_sign_lines c1 ws = no_sign_lines c2 ws.
Proof.
  unfold no_sign_lines.
  induction ws as [|w ws IH]; intros Hagree; [done|].
  destruct IH as [IH1 IH2].
  { intros w' Hw'. apply Hagree. by right. }
  assert (Hw : c1 !! w = c2 !! w) by (apply Hagree; by left).
  assert (Hs : has_sign c1 w = has_sign c2 w) by (unfold has_sign; by rewrite Hw).
  assert (Hp : sign_path c1 w = sign_path c2 w) by (unfold sign_path; by rewrite Hw).
  destruct (has_sign c2 w) eqn:E.
  - rewrite !(filter_cons_True (fun w => Is_true (has_sign _ w)))
      by (cbv beta; rewrite ?Hs, ?E; simpl; tauto).
    rewrite !(filter_cons_False (fun w => ¬ Is_true (has_sign _ w)))
      by (cbv beta; rewrite ?Hs, ?E; simpl; tauto).
    rewrite !fmap_cons. by rewrite IH1, IH2, Hp.
  - rewrite !(filter_cons_False (fun w => Is_true (has_sign _ w)))
      by (cbv beta; rewrite ?Hs, ?E; simpl; tauto).
    rewrite !(filter_cons_True (fun w => ¬ Is_true (has_sign _ w)))
      by (cbv beta; rewrite ?Hs, ?E; simpl; tauto).
    rewrite !fmap_cons. by rewrite IH1, IH2.
Qed.

(** X3.  The resolver reads the catalog at the words of the sentence
    only: two catalogs that agree on those words give the same paths and
    the same printed lines.  So adding, changing or deleting the entry of
    a word that is not in the sentence changes nothing. *)
Theorem resolver_reads_only_its_words
    (c1 c2 : gmap string string) (sentence : string) (k : Keyboard) :
  (forall w, w ∈ words sentence -> c1 !! w = c2 !! w) ->
  sentence_to_sign_paths c1 sentence k = sentence_to_sign_paths c2 sentence k.
Proof.
  intros Hagree. rewrite !sentence_to_sign_paths_run.
  by destruct (resolve_agree c1 c2 (words sentence) Hagree) as [-> ->].
Qed.

Lemma resolver_reads_only_its_words_witness :
  sentence_to_sign_paths (<["please" := "please.mp4"]> SIGN_DICT) "How can I help" []
  = sentence_to_sign_paths SIGN_DICT "How can I help" [].
Proof.
  apply resolver_reads_only_its_words.
  intros w Hw. apply lookup_insert_ne. intros <-.
  vm_compute in Hw.
  repeat (apply elem_of_cons in Hw as [Hw|Hw]; [discriminate|]).
  by apply elem_of_nil in Hw.
Defined.

(** X4.  When no file name of the catalog begins with a slash, every path
    the resolver returns is the folder [signs], a slash, and the file
    name of a word of the sentence: no path leaves the sign folder by
    being absolute. *)
Theorem resolved_paths_are_under_sign_folder
    (catalog : gmap string string) (sentence : string) (k : Keyboard) :
  map_Forall (fun _ f => PyStr.startswith_char OsPath.sep f = false) catalog ->
  Forall (fun p => exists w f, w ∈ words sentence /\ catalog !! w = Some f
                               /\ f <> EmptyString /\ p = "signs/" +:+ f)
         (result (sentence_to_sign_paths catalog sentence k)).
Proof.
  intros Hrel. rewrite sentence_to_sign_paths_run. cbn [result fst].
  apply Forall_forall. intros p Hp.
  apply list_elem_of_fmap in Hp as (w & -> & Hw).
  apply list_elem_of_filter in Hw as [Hs Hw].
  unfold has_sign in Hs. unfold sign_path.
  destruct (catalog !! w) as [f|] eqn:E; [|done].
  exists w, f. split; [done|]. split; [done|]. split.
  - by destruct f.
  - simpl. unfold OsPath.join. by rewrite (Hrel w f E).
Qed.

Lemma resolved_paths_are_under_sign_folder_witness :
  Forall (fun p => exists w f, w ∈ words "Help  me" /\ SIGN_DICT !! w = Some f
                               /\ f <> EmptyString /\ p = "signs/" +:+ f)
         (result (sentence_to_sign_paths SIGN_DICT "Help  me" [])).
Proof.
  apply resolved_paths_are_under_sign_folder.
  unfold SIGN_DICT.
  repeat (apply map_Forall_insert_2; [reflexivity|]).
  apply map_Forall_empty.
Defined.

(** ** The keys the resolver can reach *)

Section WordShape.

Import PyStr.

Lemma has_space_app s t : has_space (s +:+ t) = has_space s || has_space t.
Proof.
  induction s as [|c s IH]; simpl; [done|]. by rewrite IH, orb_assoc.
Qed.

Lemma has_space_lower s : has_space (lower s) = has_space s.
Proof.
  induction s as [|c s IH]; simpl; [done|].
  by rewrite isspace_lower_char, IH.
Qed.

(** A token of [split] is not empty and holds no whitespace. *)
Lemma split_scan_tokens cur s :
  has_space cur = false ->
  Forall (fun t => t <> EmptyString /\ has_space t = false) (split_scan cur s).
Proof.
  revert cur. induction s as [|c s IH]; intros cur Hcur; simpl.
  - destruct cur; [constructor|]. by repeat constructor.
  - destruct (isspace c) eqn:Hc.
    + destruct cur; [by apply IH|].
      constructor; [done|by apply IH].
    + apply IH. rewrite has_space_app. simpl. by rewrite Hcur, Hc.
Qed.

Lemma rstrip_no_space t : has_space t = false -> rstrip t = t.
Proof.
  induction t as [|c t IH]; simpl; [done|].
  intros [Hc Ht]%orb_false_elim. rewrite (IH Ht), Hc. by destruct t.
Qed.

Lemma strip_no_space t : has_space t = false -> strip t = t.
Proof.
  intros Ht. unfold strip.
  assert (Hl : lstrip t = t).
  { destruct t as [|c t]; [done|]. simpl in *.
    apply orb_false_elim in Ht as [-> _]. done. }
  rewrite Hl. by apply rstrip_no_space.
Qed.

(** Every word the resolver looks up is not empty, holds no whitespace
    and is in lower case. *)
Lemma words_shape sentence :
  Forall (fun w => w <> EmptyString /\ has_space w = false /\ lower w = w)
         (words sentence).
Proof.
  unfold words. apply Forall_fmap.
  eapply Forall_impl; [apply (split_scan_tokens EmptyString); done|].
  intros t [Hne Ht]. simpl. rewrite (strip_no_space t Ht).
  split; [by destruct t|]. split; [by rewrite has_space_lower|apply lower_idem].
Qed.

End WordShape.

(** X15.  A catalog key that is empty, holds whitespace or is not in
    lower case is never matched: no sentence has it among its words, so
    the resolver gives the same paths and prints the same lines with the
    entry as without it. *)
Theorem malformed_key_is_never_matched
    (catalog : gmap string string) (key f : string)
    (sentence : string) (k : Keyboard) :
  key = EmptyString \/ has_space key = true \/ PyStr.lower key <> key ->
  (key ∉ words sentence)
  /\ sentence_to_sign_paths (<[key := f]> catalog) sentence k
     = sentence_to_sign_paths (delete key catalog) sentence k.
Proof.
  intros Hbad.
  assert (Hnot : key ∉ words sentence).
  { intros Hin.
    pose proof (words_shape sentence) as Hshape.
    rewrite Forall_forall in Hshape.
    destruct (Hshape key Hin) as (Hne & Hsp & Hlow).
    destruct Hbad as [?|[?|?]]; congruence. }
  split; [done|].
  rewrite !sentence_to_sign_paths_run.
  destruct (resolve_agree (<[key := f]> catalog) (delete key catalog)
              (words sentence)) as [-> ->]; [|done].
  intros w Hw. assert (key <> w) by (by intros ->).
  by rewrite lookup_insert_ne, lookup_delete_ne.
Qed.

Lemma malformed_key_is_never_matched_witness :
  sentence_to_sign_paths (<["Thank you" := "thanks.mp4"]> SIGN_DICT)
                         "Thank you" []
  = ([], [Print (InfoNoSign "thank"); Print (InfoNoSign "you")], []).
Proof.
  assert (Hbad : "Thank you" = EmptyString \/ has_space "Thank you" = true
                 \/ PyStr.lower "Thank you" <> "Thank you")
    by (right; left; reflexivity).
  destruct (malformed_key_is_never_matched SIGN_DICT "Thank you" "thanks.mp4"
              "Thank you" [] Hbad) as [_ ->].
  vm_compute. reflexivity.
Defined.

(** ** More about the player *)

Lemma waitKey_entry delay k :
  waitKey delay k
  = (key_of delay (next_entry k),
     [WaitKey delay (entry_ms delay (next_entry k)) (key_of delay (next_entry k))],
     tail k).
Proof.
  destruct k as [|[p|] k']; simpl; try done.
  by destruct (Z.of_N (key_after p) <? delay)%Z.
Qed.

Lemma key_stops_key_of entry : is_q (key_of 25 entry) = key_stops entry.
Proof.
  destruct entry as [p|]; simpl; [|done].
  by destruct (Z.of_N (key_after p) <? 25)%Z.
Qed.

Lemma video_loop_cons f rest k :
  video_loop (f :: rest) k =
  if key_stops (next_entry k)
  then (tt, frame_events f (next_entry k), tail k)
  else (tt, frame_events f (next_entry k) ++ events (video_loop rest (tail k)),
        keys_left (video_loop rest (tail k))).
Proof.
  cbn [video_loop]. run_steps. rewrite waitKey_entry. run_steps.
  fold (is_q (key_of 25 (next_entry k))). rewrite key_stops_key_of.
  destruct (key_stops (next_entry k)); run_steps; [done|].
  by destruct (result (video_loop rest (tail k))).
Qed.

Lemma entry_ms_bounds entry : (0 <= entry_ms 25 entry <= 25)%Z.
Proof.
  destruct entry as [p|]; simpl; [|lia].
  destruct (Z.ltb_spec (Z.of_N (key_after p)) 25); lia.
Qed.

Lemma shown_frames_app es1 es2 :
  shown_frames (es1 ++ es2) = shown_frames es1 ++ shown_frames es2.
Proof.
  induction es1 as [|e es1 IH]; [done|].
  destruct e; simpl; by rewrite ?IH.
Qed.

Lemma display_ms_app es1 es2 :
  display_ms (es1 ++ es2) = (display_ms es1 + display_ms es2)%Z.
Proof.
  induction es1 as [|e es1 IH]; [done|].
  destruct e; simpl; rewrite ?IH; lia.
Qed.

Lemma reads_app es1 es2 : reads (es1 ++ es2) = (reads es1 + reads es2)%nat.
Proof. unfold reads. by rewrite List.filter_app, length_app. Qed.

Lemma q_stop_frame_events f entry :
  existsb is_q_stop (frame_events f entry) = key_stops entry.
Proof.
  unfold frame_events. simpl. rewrite orb_false_r.
  apply key_stops_key_of.
Qed.

Lemma reads_frame_events f entry : reads (frame_events f entry) = 1%nat.
Proof. reflexivity. Qed.

(** The books of the frame loop: the frames shown are the first frames of
    the clip; one keyboard entry is used per frame shown; each frame
    waits 25 ms at most; a loop that q stopped has read as many frames as
    it showed, and one that was not stopped has shown the whole clip and
    read once more. *)
Lemma video_loop_account frames k :
  let out := video_loop frames k in
  let shown := shown_frames (events out) in
  shown `prefix_of` frames
  /\ keys_left out = drop (length shown) k
  /\ (0 <= display_ms (events out) <= 25 * Z.of_nat (length shown))%Z
  /\ (existsb is_q_stop (events out) = true ->
      reads (events out) = length shown /\ (1 <= length shown)%nat)
  /\ (existsb is_q_stop (events out) = false ->
      shown = frames /\ reads (events out) = S (length frames)).
Proof.
  cbv zeta. revert k. induction frames as [|f rest IH]; intros k.
  - cbn. split; [done|]. split; [done|]. split; [lia|]. by split.
  - rewrite video_loop_cons.
    pose proof (entry_ms_bounds (next_entry k)) as Hms.
    destruct (key_stops (next_entry k)) eqn:Hstop;
      cbn [result events keys_left fst snd].
    + rewrite q_stop_frame_events, Hstop.
      cbn [frame_events shown_frames display_ms length].
      split; [by apply prefix_cons, prefix_nil|].
      split; [by destruct k|]. split; [lia|].
      split; [by intros _|by intros ?].
    + destruct (IH (tail k)) as (Hpre & Hkeys & Hdisp & Hq & Hnq).
      rewrite shown_frames_app, display_ms_app, reads_app, existsb_app,
        q_stop_frame_events, Hstop, reads_frame_events.
      cbn [frame_events shown_frames display_ms app length orb].
      split; [by apply prefix_cons|].
      split; [rewrite Hkeys; destruct k; simpl; [apply drop_nil|done]|].
      split; [lia|]. split.
      * intros Hs. destruct (Hq Hs) as [-> ?]. split; lia.
      * intros Hs. destruct (Hnq Hs) as [-> ->]. done.
Qed.

Lemma exit_of_opened path frames k :
  exit_of (VideoCapture path :: events (video_loop frames k) ++ [CapRelease])
  = if existsb is_q_stop (events (video_loop frames k))
    then StoppedByUser else Completed.
Proof.
  unfold exit_of. simpl. rewrite !existsb_app, video_loop_no_warning. simpl.
  by rewrite orb_false_r.
Qed.

Lemma shown_frames_opened path es :
  shown_frames (VideoCapture path :: es ++ [CapRelease]) = shown_frames es.
Proof. simpl. rewrite shown_frames_app. simpl. apply app_nil_r. Qed.

Lemma display_ms_opened path es :
  display_ms (VideoCapture path :: es ++ [CapRelease]) = display_ms es.
Proof. simpl. rewrite display_ms_app. simpl. lia. Qed.

Lemma reads_opened path es :
  reads (VideoCapture path :: es ++ [CapRelease]) = reads es.
Proof.
  change (VideoCapture path :: ?l) with ([VideoCapture path] ++ l).
  rewrite !reads_app. unfold reads at 1 3. simpl. lia.
Qed.

(** X5.  Playing a clip whose capture opens shows the frames of the clip
    from the first one on, in order and without a gap; it takes one entry
    off the keyboard queue per frame shown and waits 25 ms per frame at
    most.  If the user stopped it, it has read exactly the frames it
    showed (at least one); if it ran to the end, it has shown every frame
    and read once more, the read that found the clip exhausted. *)
Theorem video_shows_leading_frames
    (env : Env) (path : string) (frames : list Frame) (k : Keyboard) :
  ext_of path ∉ IMAGE_EXTENSIONS ->
  video_file env path = Some frames ->
  let out := play_video env path k in
  let shown := shown_frames (events out) in
  shown `prefix_of` frames
  /\ keys_left out = drop (length shown) k
  /\ (0 <= display_ms (events out) <= 25 * Z.of_nat (length shown))%Z
  /\ (exit_of (events out) = StoppedByUser ->
      reads (events out) = length shown /\ (1 <= length shown)%nat)
  /\ (exit_of (events out) = Completed ->
      shown = frames /\ reads (events out) = S (length frames)).
Proof.
  intros Hext Hfile. cbv zeta.
  rewrite play_video_video, Hfile by done.
  cbn [events keys_left fst snd].
  rewrite shown_frames_opened, display_ms_opened, reads_opened, exit_of_opened.
  destruct (video_loop_account frames k) as (Hpre & Hkeys & Hms & Hq & Hnq).
  split; [done|]. split; [done|]. split; [done|].
  destruct (existsb is_q_stop (events (video_loop frames k))).
  - split; [by intros _; apply Hq|done].
  - split; [done|by intros _; apply Hnq].
Qed.

Lemma video_shows_leading_frames_witness :
  let out := play_video env_all "signs/how.mp4" [None; press 97 4; press 113 10; None] in
  shown_frames (events out) = [1; 2; 3]%nat
  /\ keys_left out = [None]
  /\ reads (events out) = 3%nat.
Proof.
  assert (Hext : ext_of "signs/how.mp4" ∉ IMAGE_EXTENSIONS)
    by (apply (bool_decide_eq_false_1 _); vm_compute; reflexivity).
  pose proof (video_shows_leading_frames env_all "signs/how.mp4"
                [1; 2; 3; 4; 5]%nat [None; press 97 4; press 113 10; None]
                Hext eq_refl) as (_ & Hkeys & _ & Hstop & _).
  cbv zeta. split; [vm_compute; reflexivity|]. split.
  - rewrite Hkeys. vm_compute. reflexivity.
  - destruct Hstop as [-> _]; vm_compute; reflexivity.
Defined.

Lemma video_loop_not_stopped frames k :
  Forall (fun e => key_stops e = false) (take (length frames) k) ->
  existsb is_q_stop (events (video_loop frames k)) = false.
Proof.
  revert k. induction frames as [|f rest IH]; intros k Hk; [done|].
  rewrite video_loop_cons.
  assert (Hnext : key_stops (next_entry k) = false).
  { destruct k as [|e k']; [done|]. simpl in Hk. by inversion Hk. }
  rewrite Hnext. cbn [events fst snd].
  rewrite existsb_app, q_stop_frame_events, Hnext. simpl.
  apply IH. destruct k as [|e k']; simpl in *; [by rewrite take_nil|].
  by inversion Hk.
Qed.

Lemma video_loop_untouched_ms frames k :
  Forall (fun e => e = None) (take (length frames) k) ->
  display_ms (events (video_loop frames k)) = (25 * Z.of_nat (length frames))%Z.
Proof.
  revert k. induction frames as [|f rest IH]; intros k Hk; [done|].
  rewrite video_loop_cons.
  assert (Hnext : next_entry k = None).
  { destruct k as [|e k']; [done|]. simpl in Hk. by inversion Hk. }
  rewrite Hnext. cbn [key_stops events fst snd].
  rewrite display_ms_app, IH.
  - cbn [frame_events display_ms entry_ms length]. lia.
  - destruct k as [|e k']; simpl in *; [by rewrite take_nil|].
    by inversion Hk.
Qed.

(** X6.  A clip that the user does not stop is played to its end: when
    none of the keyboard entries used by its frames is a q pressed in
    time, every frame is shown, in order, one keyboard entry is used per
    frame, the capture is released once and the call ends as completed.
    When no key is pressed at all during it, a clip of n frames keeps the
    window for 25 n milliseconds. *)
Theorem unstopped_clip_plays_to_the_end
    (env : Env) (path : string) (frames : list Frame) (k : Keyboard) :
  ext_of path ∉ IMAGE_EXTENSIONS ->
  video_file env path = Some frames ->
  Forall (fun e => key_stops e = false) (take (length frames) k) ->
  let out := play_video env path k in
  shown_frames (events out) = frames
  /\ keys_left out = drop (length frames) k
  /\ exit_of (events out) = Completed
  /\ reads (events out) = S (length frames)
  /\ releases (events out) = 1%nat
  /\ (Forall (fun e => e = None) (take (length frames) k) ->
      display_ms (events out) = (25 * Z.of_nat (length frames))%Z).
Proof.
  intros Hext Hfile Hk. cbv zeta.
  rewrite play_video_video, Hfile by done.
  cbn [events keys_left fst snd].
  rewrite shown_frames_opened, display_ms_opened, reads_opened, exit_of_opened.
  pose proof (video_loop_not_stopped frames k Hk) as Hno.
  destruct (video_loop_account frames k) as (_ & Hkeys & _ & _ & Hnq).
  destruct (Hnq Hno) as [Hshown Hreads].
  rewrite Hno, Hkeys, Hshown, Hreads.
  split; [done|]. split; [done|]. split; [done|]. split; [done|]. split.
  - change (VideoCapture path :: ?l) with ([VideoCapture path] ++ l).
    rewrite !releases_app. unfold releases at 2.
    by rewrite video_loop_no_release.
  - apply video_loop_untouched_ms.
Qed.

Lemma unstopped_clip_plays_to_the_end_witness :
  let out := play_video env_all "signs/how.mp4" [None; None; press 97 3] in
  shown_frames (events out) = [1; 2; 3; 4; 5]%nat
  /\ exit_of (events out) = Completed.
Proof.
  assert (Hext : ext_of "signs/how.mp4" ∉ IMAGE_EXTENSIONS)
    by (apply (bool_decide_eq_false_1 _); vm_compute; reflexivity).
  assert (Hk : Forall (fun e => key_stops e = false)
                 (take (length [1; 2; 3; 4; 5]%nat) [None; None; press 97 3]))
    by (repeat constructor).
  pose proof (unstopped_clip_plays_to_the_end env_all "signs/how.mp4"
                [1; 2; 3; 4; 5]%nat [None; None; press 97 3] Hext eq_refl Hk)
    as (Hshown & _ & Hexit & _).
  by split.
Defined.

Lemma video_loop_stopped frames pre e post :
  Forall (fun e => key_stops e = false) pre ->
  key_stops e = true ->
  (length pre < length frames)%nat ->
  shown_frames (events (video_loop frames (pre ++ e :: post)))
  = take (S (length pre)) frames
  /\ keys_left (video_loop frames (pre ++ e :: post)) = post
  /\ existsb is_q_stop (events (video_loop frames (pre ++ e :: post))) = true.
Proof.
  intros Hpre He. revert frames.
  induction Hpre as [|a pre Ha Hpre IH]; intros frames Hlen;
    (destruct frames as [|f rest]; [simpl in Hlen; lia|]);
    rewrite video_loop_cons; cbn [app];
    change (next_entry (?a :: ?l)) with a; cbn [tail].
  - rewrite He. cbn [events keys_left fst snd].
    by rewrite q_stop_frame_events, He.
  - rewrite Ha. cbn [events keys_left fst snd].
    destruct (IH rest) as (Hshown & Hkeys & Hq); [simpl in Hlen; lia|].
    rewrite shown_frames_app, existsb_app, Hshown, Hkeys, Hq.
    split; [done|]. split; [done|]. apply orb_true_r.
Qed.

(** X7.  Pressing q stops the clip at the frame that is up and leaves the
    rest unread: when the first q pressed in time comes while frame
    number n+1 is up (n frames went by unstopped, and the clip has more
    than n frames), exactly the first n+1 frames are shown and read, the
    keyboard entries after the q are left for the next item, the capture
    is released once, and the call ends as stopped by the user. *)
Theorem q_stops_clip_at_current_frame
    (env : Env) (path : string) (frames : list Frame)
    (pre : Keyboard) (e : option KeyPress) (post : Keyboard) :
  ext_of path ∉ IMAGE_EXTENSIONS ->
  video_file env path = Some frames ->
  Forall (fun e => key_stops e = false) pre ->
  key_stops e = true ->
  (length pre < length frames)%nat ->
  let out := play_video env path (pre ++ e :: post) in
  shown_frames (events out) = take (S (length pre)) frames
  /\ reads (events out) = S (length pre)
  /\ keys_left out = post
  /\ releases (events out) = 1%nat
  /\ exit_of (events out) = StoppedByUser.
Proof.
  intros Hext Hfile Hpre He Hlen. cbv zeta.
  rewrite play_video_video, Hfile by done.
  cbn [events keys_left fst snd].
  rewrite shown_frames_opened, reads_opened, exit_of_opened.
  destruct (video_loop_stopped frames pre e post Hpre He Hlen)
    as (Hshown & Hkeys & Hq).
  destruct (video_loop_account frames (pre ++ e :: post))
    as (_ & _ & _ & Hreads & _).
  destruct (Hreads Hq) as [-> _].
  rewrite Hshown, Hkeys, Hq, length_take.
  split; [done|]. split; [lia|]. split; [done|]. split; [|done].
  change (VideoCapture path :: ?l) with ([VideoCapture path] ++ l).
  rewrite !releases_app. unfold releases at 2.
  by rewrite video_loop_no_release.
Qed.

Lemma q_stops_clip_at_current_frame_witness :
  let out := play_video env_all "signs/help.mp4"
               ([None; press 32 7] ++ press 113 20 :: [press 113 1]) in
  shown_frames (events out) = [1; 2; 3]%nat
  /\ keys_left out = [press 113 1]
  /\ exit_of (events out) = StoppedByUser.
Proof.
  assert (Hext : ext_of "signs/help.mp4" ∉ IMAGE_EXTENSIONS)
    by (apply (bool_decide_eq_false_1 _); vm_compute; reflexivity).
  assert (Hpre : Forall (fun e => key_stops e = false) [None; press 32 7])
    by (repeat constructor).
  assert (Hlen : (length [None; press 32 7] < length [1; 2; 3; 4; 5]%nat)%nat)
    by (simpl; lia).
  pose proof (q_stops_clip_at_current_frame env_all "signs/help.mp4"
                [1; 2; 3; 4; 5]%nat [None; press 32 7] (press 113 20)
                [press 113 1] Hext eq_refl Hpre eq_refl Hlen)
    as (Hshown & _ & Hkeys & _ & Hexit).
  by split.
Defined.

Lemma is_q_low_byte key : is_q key = true <-> (key mod 256 = 113)%Z.
Proof.
  unfold is_q, ord_q. change 255%Z with (Z.ones 8).
  rewrite Z.land_ones by lia. change (2 ^ 8)%Z with 256%Z.
  apply Z.eqb_eq.
Qed.

(** X8.  The stop test looks at the low byte of the key code only
    ([waitKey(25) & 0xFF == ord("q")]): a key pressed in time during the
    first frame of a clip stops the clip there exactly when its code is
    113 modulo 256.  So a code that carries flags above the low byte
    still stops the clip, and neither capital Q (81) nor the -1 of a wait
    that timed out does. *)
Theorem stop_test_reads_low_byte
    (env : Env) (path : string) (f : Frame) (rest : list Frame)
    (p : KeyPress) (k : Keyboard) :
  ext_of path ∉ IMAGE_EXTENSIONS ->
  video_file env path = Some (f :: rest) ->
  (Z.of_N (key_after p) < 25)%Z ->
  let out := play_video env path (Some p :: k) in
  (exit_of (events out) = StoppedByUser /\ shown_frames (events out) = [f]
   <-> (key_code p mod 256 = 113)%Z)
  /\ ((key_code p mod 256 = 113)%Z ->
      exit_of (events out) = StoppedByUser
      /\ shown_frames (events out) = [f] /\ keys_left out = k)
  /\ ((key_code p mod 256 <> 113)%Z ->
      shown_frames (events out)
      = f :: shown_frames (events (video_loop rest k))
      /\ keys_left out = keys_left (video_loop rest k)).
Proof.
  intros Hext Hfile Hin. cbv zeta.
  rewrite play_video_video, Hfile by done.
  cbn [events keys_left fst snd].
  rewrite shown_frames_opened, exit_of_opened, video_loop_cons.
  change (next_entry (?a :: ?l)) with a. cbn [tail key_stops].
  assert (Hlt : (Z.of_N (key_after p) <? 25)%Z = true) by (apply Z.ltb_lt; lia).
  rewrite Hlt. cbn [andb].
  destruct (is_q (key_code p)) eqn:Hq.
  - apply is_q_low_byte in Hq as Hmod.
    cbn [events keys_left fst snd].
    rewrite q_stop_frame_events. cbn [key_stops]. rewrite Hlt, Hq. cbn [andb].
    split; [by split|]. split; [done|]. by intros Hne.
  - assert (Hmod : (key_code p mod 256 <> 113)%Z).
    { intros Hm. apply is_q_low_byte in Hm. congruence. }
    cbn [events keys_left fst snd].
    rewrite shown_frames_app, existsb_app, q_stop_frame_events.
    cbn [key_stops]. rewrite Hlt, Hq. cbn [andb orb frame_events shown_frames app].
    split; [|split; [by intros ?|done]].
    split; [|done].
    intros [Hexit Hshown]. exfalso.
    injection Hshown as Hshown.
    destruct (existsb is_q_stop (events (video_loop rest k))) eqn:Hs;
      [|discriminate].
    destruct (video_loop_account rest k) as (_ & _ & _ & Hacc & _).
    destruct (Hacc Hs) as [_ Hone]. rewrite Hshown in Hone. simpl in Hone. lia.
Qed.

Lemma stop_test_reads_low_byte_witness :
  exit_of (events (play_video env_all "signs/how.mp4" [press 1048689 5]))
  = StoppedByUser
  /\ shown_frames (events (play_video env_all "signs/how.mp4" [press 1048689 5]))
     = [1%nat]
  /\ shown_frames (events (play_video env_all "signs/how.mp4" [press 81 5]))
     = [1; 2; 3; 4; 5]%nat.
Proof.
  assert (Hext : ext_of "signs/how.mp4" ∉ IMAGE_EXTENSIONS)
    by (apply (bool_decide_eq_false_1 _); vm_compute; reflexivity).
  pose proof (stop_test_reads_low_byte env_all "signs/how.mp4" 1%nat
                [2; 3; 4; 5]%nat {| key_code := 1048689; key_after := 5 |} []
                Hext eq_refl eq_refl) as (_ & Hstop & _).
  destruct (Hstop eq_refl) as (Hexit & Hshown & _).
  split; [exact Hexit|]. split; [exact Hshown|].
  vm_compute. reflexivity.
Defined.

Section ExtensionCase.

Import PyStr.









End ExtensionCase.

Lemma play_video_open_calls env path k :
  open_calls (events (play_video env path k)) = [open_call_of path].
Proof.
  unfold open_call_of.
  destruct (decide (ext_of path ∈ IMAGE_EXTENSIONS)) as [Hext|Hext].
  - rewrite bool_decide_eq_true_2, play_video_image by done.
    destruct (imread env path) as [frame|]; [|done].
    by destruct (waitKey_run 1500 k) as (key & t & -> & _).
  - rewrite bool_decide_eq_false_2, play_video_video by done.
    destruct (video_file env path) as [frames|]; [|done].
    cbn [events fst snd]. unfold open_calls.
    change (VideoCapture path :: ?es) with ([VideoCapture path] ++ es).
    by rewrite !List.filter_app, video_loop_no_open.
Qed.


(** ** Which files are still images *)

Section SplitextFacts.

Import PyStr.

Lemma append_cons a (s t : string) : String a s +:+ t = String a (s +:+ t).
Proof. reflexivity. Qed.

Lemma append_nil (t : string) : EmptyString +:+ t = t.
Proof. reflexivity. Qed.

Lemma rfind_from_app c s1 s2 i last :
  rfind_from c (s1 +:+ s2) i last
  = rfind_from c s2 (i + Z.of_nat (String.length s1)) (rfind_from c s1 i last).
Proof.
  revert i last. induction s1 as [|a s1 IH]; intros i last.
  - rewrite append_nil. simpl. by rewrite Z.add_0_r.
  - rewrite append_cons. simpl rfind_from. rewrite IH.
    f_equal. simpl String.length. lia.
Qed.

Lemma rfind_from_absent c s i last :
  has_char c s = false -> rfind_from c s i last = last.
Proof.
  revert i last. induction s as [|a s IH]; intros i last; simpl; [done|].
  intros [-> Hs]%orb_false_elim. by apply IH.
Qed.

Lemma rfind_from_endswith c s i last :
  endswith_char c s = true ->
  rfind_from c s i last = (i + Z.of_nat (String.length s) - 1)%Z.
Proof.
  revert i last. induction s as [|a s IH]; intros i last; [done|].
  destruct s as [|b s].
  - simpl. intros ->. lia.
  - intros Hend. change (endswith_char c (String b s) = true) in Hend.
    change (rfind_from c (String a (String b s)) i last)
      with (rfind_from c (String b s) (i + 1) (if Ascii.eqb a c then i else last)).
    rewrite IH by done.
    change (String.length (String a (String b s)))
      with (S (String.length (String b s))).
    lia.
Qed.

Lemma has_non_dot_name name rest :
  OsPath.has_non_dot (String.length name) (name +:+ rest) = has_name name.
Proof.
  induction name as [|a name IH]; [done|].
  rewrite append_cons. simpl. by rewrite IH.
Qed.

Lemma drop_app_length s t : drop (String.length s) (s +:+ t) = t.
Proof. induction s as [|a s IH]; [done|]. rewrite append_cons. exact IH. Qed.

Lemma take_app_length s t : take (String.length s) (s +:+ t) = s.
Proof.
  induction s as [|a s IH]; [by destruct t|].
  rewrite append_cons. simpl. by rewrite IH.
Qed.

Lemma append_assoc (s t u : string) : (s +:+ t) +:+ u = s +:+ (t +:+ u).
Proof.
  induction s as [|a s IH]; [done|]. rewrite !append_cons. by rewrite IH.
Qed.

Lemma length_append (s t : string) :
  String.length (s +:+ t) = (String.length s + String.length t)%nat.
Proof.
  induction s as [|a s IH]; [done|]. rewrite append_cons. simpl. by rewrite IH.
Qed.

(** In a folder (empty, or ending in a slash), a file called [name],
    a dot, [t] with a name that is not made of dots only and no further
    dot in [t], splits into the path up to the name and the dot with
    [t]. *)
Lemma splitext_named dir name t :
  dir = EmptyString \/ endswith_char OsPath.sep dir = true ->
  has_char OsPath.sep name = false ->
  has_name name = true ->
  has_char OsPath.sep t = false ->
  has_char OsPath.extsep t = false ->
  OsPath.splitext (dir +:+ name +:+ String OsPath.extsep t)
  = (dir +:+ name, String OsPath.extsep t).
Proof.
  intros Hdir Hname Hnm Hts Htd.
  assert (Hsep : rfind OsPath.sep (dir +:+ name +:+ String OsPath.extsep t)
                 = (Z.of_nat (String.length dir) - 1)%Z).
  { unfold rfind. rewrite !rfind_from_app. cbn [rfind_from].
    change (Ascii.eqb OsPath.extsep OsPath.sep) with false. cbv iota.
    rewrite (rfind_from_absent _ t) by done.
    rewrite (rfind_from_absent _ name) by done.
    destruct Hdir as [->|Hend]; [done|].
    rewrite rfind_from_endswith by done. lia. }
  assert (Hdot : rfind OsPath.extsep (dir +:+ name +:+ String OsPath.extsep t)
                 = Z.of_nat (String.length (dir +:+ name))).
  { unfold rfind. rewrite <- append_assoc, rfind_from_app. cbn [rfind_from].
    change (Ascii.eqb OsPath.extsep OsPath.extsep) with true. cbv iota.
    rewrite (rfind_from_absent _ t) by done. lia. }
  unfold OsPath.splitext. rewrite Hsep, Hdot.
  rewrite length_append.
  replace (Z.to_nat (Z.of_nat (String.length dir) - 1 + 1))
    with (String.length dir) by lia.
  replace (Z.to_nat (Z.of_nat (String.length dir + String.length name)
                     - (Z.of_nat (String.length dir) - 1 + 1)))
    with (String.length name) by lia.
  rewrite drop_app_length, has_non_dot_name, Hnm, andb_true_r.
  assert (Hlt : (Z.of_nat (String.length dir) - 1
                 <? Z.of_nat (String.length dir + String.length name))%Z = true)
    by (apply Z.ltb_lt; lia).
  rewrite Hlt, Nat2Z.id, <- length_append, <- append_assoc.
  by rewrite take_app_length, drop_app_length.
Qed.

End SplitextFacts.

(** X16.  A file in a folder whose name is not made of dots only and
    ends in a dot and an extension is classified by that extension, in
    any letter case: [play_video] hands it to [cv2.imread] when the
    lower-cased extension is one of the five image extensions, and to
    [cv2.VideoCapture] otherwise. *)
Theorem named_file_is_classified_by_its_extension
    (env : Env) (dir name t : string) (k : Keyboard) :
  dir = EmptyString \/ PyStr.endswith_char OsPath.sep dir = true ->
  has_char OsPath.sep name = false ->
  has_name name = true ->
  has_char OsPath.sep t = false ->
  has_char OsPath.extsep t = false ->
  let path := dir +:+ name +:+ String OsPath.extsep t in
  ext_of path = PyStr.lower (String OsPath.extsep t)
  /\ open_calls (events (play_video env path k))
     = [if bool_decide (PyStr.lower (String OsPath.extsep t) ∈ IMAGE_EXTENSIONS)
        then Imread path else VideoCapture path].
Proof.
  intros Hdir Hname Hnm Hts Htd. cbv zeta.
  assert (Hext : ext_of (dir +:+ name +:+ String OsPath.extsep t)
                 = PyStr.lower (String OsPath.extsep t)).
  { unfold ext_of. by rewrite splitext_named. }
  split; [exact Hext|].
  rewrite play_video_open_calls. unfold open_call_of. by rewrite Hext.
Qed.

Lemma named_file_is_classified_by_its_extension_witness :
  open_calls (events (play_video env_all "signs/Thank.You.JPEG" []))
  = [Imread "signs/Thank.You.JPEG"].
Proof.
  apply (named_file_is_classified_by_its_extension env_all "signs/" "Thank.You"
           "JPEG" []); (by left) || (by right) || reflexivity.
Defined.

(** ** More about the listen loop *)

Lemma forallb_impl (p q : Event -> bool) es :
  (forall e, p e = true -> q e = true) ->
  forallb p es = true -> forallb q es = true.
Proof.
  intros Hpq. induction es as [|e es IH]; simpl; [done|].
  intros [He Hes]%andb_prop. by rewrite (Hpq e He), IH.
Qed.

Lemma frame_step_playing e : is_frame_step e = true -> is_playing e = true.
Proof. by destruct e. Qed.


Lemma playing_not_destroy e : is_playing e = true -> is_destroy e = false.
Proof. by destruct e. Qed.



Lemma play_video_playing env path k :
  forallb is_playing (events (play_video env path k)) = true.
Proof.
  destruct (decide (ext_of path ∈ IMAGE_EXTENSIONS)) as [Hext|Hext].
  - rewrite play_video_image by done.
    destruct (imread env path) as [frame|]; [|done].
    by destruct (waitKey_run 1500 k) as (key & t & -> & _).
  - rewrite play_video_video by done.
    destruct (video_file env path) as [frames|]; [|done].
    cbn [events fst snd forallb is_playing andb].
    rewrite forallb_app. cbn. rewrite andb_true_r.
    eapply forallb_impl; [apply frame_step_playing|apply video_loop_steps].
Qed.

Lemma play_all_playing env paths k :
  forallb is_playing (events (for_each (play_then_sleep env) paths k)) = true.
Proof.
  revert k. induction paths as [|p ps IH]; intros k; [done|].
  cbn [for_each]. unfold play_then_sleep at 1. run_steps.
  rewrite !forallb_app, play_video_playing, IH. done.
Qed.


Lemma words_lower sentence : words (PyStr.lower sentence) = words sentence.
Proof.
  unfold words. rewrite split_lower, <- list_fmap_compose.
  apply list_fmap_ext. intros _ w _. simpl.
  by rewrite strip_lower, lower_idem.
Qed.

Lemma cycle_failed_run env heard line k :
  failure_line heard = Some line ->
  cycle env heard k = (tt, listening ++ [Print line], k).
Proof.
  intros Hline. unfold cycle.
  rewrite bind_run, listen_for_sentence_run.
  destruct heard; simpl in Hline; by simplify_eq.
Qed.

(** One turn on a recognized sentence, case by case. *)
Lemma cycle_recognized_run env sentence k :
  let paths := sign_path SIGN_DICT
                 <$> filter (fun w => has_sign SIGN_DICT w) (words sentence) in
  let lines := no_sign_lines SIGN_DICT (words sentence) in
  cycle env (Recognized sentence) k =
  if PyStr.truthy (PyStr.lower sentence) then
    match paths with
    | [] => (tt, listening ++ Print (Stt sentence) :: lines
                   ++ [Print InfoNoPlayable], k)
    | _ => (tt, listening ++ Print (Stt sentence) :: lines
                  ++ events (for_each (play_then_sleep env) paths k)
                  ++ [DestroyAllWindows; Print Ready],
            keys_left (for_each (play_then_sleep env) paths k))
    end
  else (tt, listening ++ [Print (Stt sentence)], k).
Proof.
  cbv zeta. unfold cycle.
  rewrite bind_run, listen_for_sentence_run.
  cbn [result events keys_left fst snd].
  destruct (PyStr.truthy (PyStr.lower sentence)); cbn [negb]; [|done].
  rewrite bind_run, sentence_to_sign_paths_run, words_lower.
  cbn [result events keys_left fst snd].
  destruct (sign_path SIGN_DICT <$> _) as [|p ps] eqn:Hpaths.
  - unfold emit. cbn [result events keys_left fst snd].
    by rewrite <- app_assoc.
  - fold (play_then_sleep env). run_steps.
    by rewrite <- !app_assoc.
Qed.

Lemma playback_marks_lines catalog ws :
  playback_marks (no_sign_lines catalog ws) = [].
Proof.
  unfold no_sign_lines. by induction (filter _ ws) as [|w l IH].
Qed.

Lemma destroys_app es1 es2 : destroys (es1 ++ es2) = (destroys es1 + destroys es2)%nat.
Proof. unfold destroys. by rewrite List.filter_app, length_app. Qed.


Lemma destroys_lines catalog ws : destroys (no_sign_lines catalog ws) = 0%nat.
Proof.
  unfold no_sign_lines, destroys. by induction (filter _ ws) as [|w l IH].
Qed.

Lemma destroys_play_all env paths k :
  destroys (events (for_each (play_then_sleep env) paths k)) = 0%nat.
Proof.
  unfold destroys.
  rewrite (filter_none_of is_playing is_destroy);
    auto using playing_not_destroy, play_all_playing.
Qed.

Lemma SIGN_DICT_files_are_clips :
  map_Forall (fun _ f => open_call_of (OsPath.join SIGN_FOLDER f)
                         = VideoCapture (OsPath.join SIGN_FOLDER f)) SIGN_DICT.
Proof.
  unfold SIGN_DICT.
  repeat (apply map_Forall_insert_2; [vm_compute; reflexivity|]).
  apply map_Forall_empty.
Qed.

Lemma sign_paths_open_as_clips (ws : list string) :
  Forall (fun w => has_sign SIGN_DICT w) ws ->
  flat_map (fun p => [open_call_of p; Sleep INTER_SIGN_DELAY])
           (sign_path SIGN_DICT <$> ws)
  = flat_map (fun p => [VideoCapture p; Sleep INTER_SIGN_DELAY])
             (sign_path SIGN_DICT <$> ws).
Proof.
  induction 1 as [|w ws Hw _ IH]; [done|].
  rewrite fmap_cons. cbn [flat_map]. rewrite IH. f_equal.
  unfold has_sign in Hw. unfold sign_path.
  destruct (SIGN_DICT !! w) as [f|] eqn:E; [|done].
  simpl. by rewrite (SIGN_DICT_files_are_clips w f E).
Qed.

(** X10.  Whatever sentence is recognized, the turn opens exactly the
    paths the resolver returns for it, in that order, each as a video and
    each followed by the sleep of 0.4 seconds; it captures one utterance;
    and it closes the window once, after the last sleep, when there was
    something to play and not at all otherwise. *)
Theorem recognized_sentence_plays_its_signs
    (env : Env) (sentence : string) (k : Keyboard) :
  let paths := result (sentence_to_sign_paths SIGN_DICT sentence k) in
  let out := cycle env (Recognized sentence) k in
  playback_marks (events out)
  = flat_map (fun p => [VideoCapture p; Sleep 0.4]) paths
  /\ destroys (events out) = (match paths with [] => 0 | _ => 1 end)%nat
  /\ (paths <> [] ->
      exists es, events out = es ++ [DestroyAllWindows; Print Ready]
                 /\ destroys es = 0%nat).
Proof.
  cbv zeta. rewrite cycle_recognized_run, sentence_to_sign_paths_run.
  cbn [result fst].
  destruct (PyStr.truthy (PyStr.lower sentence)) eqn:Htruthy.
  - destruct (sign_path SIGN_DICT <$> _) as [|p ps] eqn:Hpaths.
    + cbn [events fst snd]. split; [|split; [|done]].
      * rewrite playback_marks_app. cbn.
        change (Print (Stt sentence) :: ?l) with ([Print (Stt sentence)] ++ l).
        by rewrite !playback_marks_app, playback_marks_lines.
      * change (Print (Stt sentence) :: ?l) with ([Print (Stt sentence)] ++ l).
        by rewrite !destroys_app, destroys_lines.
    + cbn [events fst snd]. rewrite <- Hpaths. split; [|split].
      * change (Print (Stt sentence) :: ?l) with ([Print (Stt sentence)] ++ l).
        rewrite !playback_marks_app, playback_marks_lines, play_all_marks.
        cbn. rewrite app_nil_r. apply sign_paths_open_as_clips.
        apply Forall_forall. intros w Hw.
        by apply list_elem_of_filter in Hw as [Hs _].
      * change (Print (Stt sentence) :: ?l) with ([Print (Stt sentence)] ++ l).
        rewrite !destroys_app, destroys_lines, destroys_play_all.
        by rewrite ?Hpaths.
      * intros _. eexists. split.
        { rewrite app_comm_cons, !app_assoc. reflexivity. }
        change (Print (Stt sentence) :: ?l) with ([Print (Stt sentence)] ++ l).
        by rewrite !destroys_app, destroys_lines, destroys_play_all.
  - assert (Hs : sentence = EmptyString).
    { destruct sentence; [done|discriminate]. }
    subst sentence. by cbn.
Qed.

Lemma recognized_sentence_plays_its_signs_witness :
  playback_marks (events (cycle env_nothing (Recognized "Please HELP") []))
  = [VideoCapture "signs/help.mp4"; Sleep 0.4].
Proof.
  pose proof (recognized_sentence_plays_its_signs env_nothing "Please HELP" [])
    as [Hmarks _].
  cbv zeta in Hmarks. rewrite Hmarks. vm_compute. reflexivity.
Defined.

Lemma filter_none_all {A} (P : A -> bool) (l : list A) :
  filter (fun x => P x) l = [] -> filter (fun x => ¬ P x) l = l.
Proof.
  induction l as [|x l IH]; [done|].
  destruct (P x) eqn:E.
  - rewrite filter_cons_True by (cbv beta; rewrite E; simpl; tauto). done.
  - rewrite filter_cons_False by (cbv beta; rewrite E; simpl; tauto).
    rewrite filter_cons_True by (cbv beta; rewrite E; simpl; tauto).
    intros H. by rewrite IH.
Qed.

(** X11.  A recognized sentence none of whose words has a sign (also one
    made of whitespace only) opens no file and leaves the window and the
    keyboard queue alone: after the recognized text, the turn prints the
    no-sign line of every word, in order, then the no-playable-signs
    line, and ends. *)
Theorem sentence_without_signs_plays_nothing
    (env : Env) (sentence : string) (k : Keyboard) :
  sentence <> EmptyString ->
  result (sentence_to_sign_paths SIGN_DICT sentence k) = [] ->
  cycle env (Recognized sentence) k
  = (tt,
     listening ++ Print (Stt sentence)
       :: ((fun w => Print (InfoNoSign w)) <$> words sentence)
       ++ [Print InfoNoPlayable],
     k).
Proof.
  intros Hne Hnone. rewrite sentence_to_sign_paths_run in Hnone.
  cbn [result fst] in Hnone.
  rewrite cycle_recognized_run. cbv zeta. rewrite Hnone.
  assert (Htruthy : PyStr.truthy (PyStr.lower sentence) = true)
    by (by destruct sentence).
  rewrite Htruthy. unfold no_sign_lines.
  apply fmap_nil_inv in Hnone. by rewrite (filter_none_all _ _ Hnone).
Qed.

Lemma sentence_without_signs_plays_nothing_witness :
  cycle env_all (Recognized "Good morning") [press 113 1]
  = (tt,
     listening ++ [Print (Stt "Good morning"); Print (InfoNoSign "good");
                   Print (InfoNoSign "morning"); Print InfoNoPlayable],
     [press 113 1])
  /\ cycle env_all (Recognized "  ") []
     = (tt, listening ++ [Print (Stt "  "); Print InfoNoPlayable], []).
Proof.
  split.
  - rewrite (sentence_without_signs_plays_nothing env_all "Good morning"
               [press 113 1]); [reflexivity|discriminate|reflexivity].
  - rewrite (sentence_without_signs_plays_nothing env_all "  " []);
      [reflexivity|discriminate|reflexivity].
Defined.

Lemma listen_loop_cons env h rest k :
  listen_loop env (h :: rest) k
  = (tt,
     events (cycle env h k)
       ++ events (listen_loop env rest (keys_left (cycle env h k))),
     keys_left (listen_loop env rest (keys_left (cycle env h k)))).
Proof.
  cbn [listen_loop]. rewrite bind_run.
  by destruct (result (listen_loop env rest _)).
Qed.

Lemma listen_loop_failed env h line rest k :
  failure_line h = Some line ->
  listen_loop env (h :: rest) k
  = (tt, (listening ++ [Print line]) ++ events (listen_loop env rest k),
     keys_left (listen_loop env rest k)).
Proof.
  intros Hline. rewrite listen_loop_cons, (cycle_failed_run env h line k Hline).
  done.
Qed.

Lemma failure_line_not_recognized h :
  is_recognized h = false -> exists line, failure_line h = Some line.
Proof. destruct h; [done|by eexists|by eexists]. Qed.

(** X12.  Utterances that are not recognized leave no trace in what is
    played: the loop opens the same files with the same sleeps, shows the
    same frames and is left with the same keyboard queue as the loop that
    hears the recognized utterances only. *)
Theorem failed_recognitions_do_not_change_playback
    (env : Env) (heard : list Recognition) (k : Keyboard) :
  let all := listen_loop env heard k in
  let heard_ok := List.filter is_recognized heard in
  playback_marks (events all)
  = playback_marks (events (listen_loop env heard_ok k))
  /\ shown_frames (events all)
     = shown_frames (events (listen_loop env heard_ok k))
  /\ keys_left all = keys_left (listen_loop env heard_ok k).
Proof.
  cbv zeta. revert k. induction heard as [|h rest IH]; intros k; [done|].
  cbn [List.filter]. destruct (is_recognized h) eqn:Hrec.
  - rewrite !listen_loop_cons. cbn [events keys_left fst snd].
    rewrite !playback_marks_app, !shown_frames_app.
    destruct (IH (keys_left (cycle env h k))) as (-> & -> & ->). done.
  - destruct (failure_line_not_recognized h Hrec) as [line Hline].
    rewrite (listen_loop_failed env h line rest k Hline).
    cbn [events keys_left fst snd].
    rewrite playback_marks_app, shown_frames_app.
    destruct (IH k) as (<- & <- & <-). done.
Qed.











